(** * oopTk: a countdown worker polled by a Tkinter window

    Shallow embedding of [main.py]: the worker function [decrement], run in
    a separate process, and the methods of [Window], run on the thread of
    the GUI event loop. *)

From Stdlib Require Import ZArith Lia Ascii String Sorted.
From Equations Require Import Equations.
From stdpp Require Import gmap strings list fin_maps.

Local Open Scope string_scope.
Local Open Scope list_scope.
Local Open Scope Z_scope.

(** ** The worker *)

Module Worker.

(** What the worker does to the outside world: [pipe_out.send(v)] and
    [time.sleep(0.5)], the pause being kept in milliseconds. *)
Inductive event :=
| Send (pipe_out : nat) (v : Z)
| Sleep (ms : Z).

#[global] Instance event_eq_dec : EqDecision event.
Proof. solve_decision. Defined.

(** The [while start_num > 0] loop of [decrement]: decrement, send the new
    value, sleep. It runs [start_num] times for a non-negative integer and
    not at all for a negative one, hence the measure. *)
Equations? decrement_loop (start_num : Z) (pipe_out : nat) : list event
  by wf (Z.to_nat start_num) lt :=
  decrement_loop start_num pipe_out with Z_gt_dec start_num 0 := {
    | left _ =>
        let start_num' := start_num - 1 in
        Send pipe_out start_num' :: Sleep 500 :: decrement_loop start_num' pipe_out;
    | right _ => [] }.
Proof. lia. Qed.

(** [decrement(start_num, pipe_out)]: the loop, then [pipe_out.send(0)]. *)
Definition decrement (start_num : Z) (pipe_out : nat) : list event :=
  decrement_loop start_num pipe_out ++ [Send pipe_out 0].

(** The values that travel on the channel, in the order they are sent. *)
Definition sent (tr : list event) : list Z :=
  omap (fun e => match e with Send _ v => Some v | Sleep _ => None end) tr.

End Worker.

(** ** Python values, exceptions and the decimal form of an integer *)

Module Py.

(** The objects an attribute of the window can hold. There is one Tk root
    and one [StringVar]; processes and connections are named by their index
    in the store. *)
Inductive value :=
| VNone
| VTk
| VWidget
| VStringVar
| VProcess (p : nat)
| VConnection (c : nat).

#[global] Instance value_eq_dec : EqDecision value.
Proof. solve_decision. Defined.

Inductive exn :=
| AttributeError (name : string)
| AssertionError
| EOFError
| ValueError
| TclError.

(** A call returns, raises, or never returns (a blocking receive on an
    empty channel whose other end stays open). *)
Inductive outcome (A : Type) :=
| Returned (a : A)
| Raised (e : exn)
| Blocked.
Arguments Returned {A} a.
Arguments Raised {A} e.
Arguments Blocked {A}.

Definition digit_char (d : Z) : ascii := ascii_of_nat (48 + Z.to_nat d).

(** The decimal digits of a non-negative integer, most significant first. *)
Equations? digits (n : Z) : list ascii by wf (Z.to_nat n) lt :=
  digits n with Z_lt_dec n 10 := {
    | left _ => [digit_char n];
    | right _ => digits (n / 10) ++ [digit_char (n mod 10)] }.
Proof. assert (n / 10 < n) by (apply Z.div_lt; lia). assert (0 <= n / 10) by (apply Z.div_pos; lia). lia. Qed.

(** The text of [str(num)] for an [int], when Python gives one: see
    [format_int] for the values it refuses. *)
Definition str (num : Z) : string :=
  if num <? 0 then String "-"%char (string_of_list_ascii (digits (- num)))
  else string_of_list_ascii (digits num).

(** [sys.int_max_str_digits] as CPython sets it by default: an [int] with
    more decimal digits than this is not converted to text. *)
Definition int_max_str_digits : Z := 4300.

Definition fits (num : Z) : Prop :=
  Z.of_nat (length (digits (Z.abs num))) <= int_max_str_digits.

#[global] Instance fits_dec num : Decision (fits num).
Proof. unfold fits. apply Z_le_dec. Defined.

(** [f"{num}"] for an [int]: its numeral, or [ValueError] when the digits
    are too many. *)
Definition format_int (num : Z) : outcome string :=
  if decide (fits num) then Returned (str num) else Raised ValueError.

End Py.

(** ** The store: Tk root, channel ends and processes *)

Module Store.
Import Worker Py.

(** The bound methods handed to [root.after]. *)
Inductive callback :=
| cb_update
| cb_clear_countdown_label.

#[global] Instance callback_eq_dec : EqDecision callback.
Proof. solve_decision. Defined.

(** One end of a [multiprocessing.Pipe()]: the values sent by the other end
    and not yet received, the index of the other end, and whether the other
    end has been closed. *)
Record Connection := mkConnection {
  inbox : list Z;
  peer : nat;
  peer_closed : bool }.

Inductive liveness :=
| Initial   (* created, [start()] not called yet *)
| Alive
| Exited    (* the target returned *)
| Killed.

#[global] Instance liveness_eq_dec : EqDecision liveness.
Proof. solve_decision. Defined.

(** A [multiprocessing.Process(target=decrement, args=(start_num, pipe_out))]
    with what is left of its run, and whether [join()] has waited for it. *)
Record Process := mkProcess {
  start_num : Z;
  pipe_out : nat;
  todo : list event;
  status : liveness;
  joined : bool }.

Record State := mkState {
  self : gmap string value;        (* the attributes of the [Window] object *)
  countdown_text : string;         (* the content of [countdown_var] *)
  conns : list Connection;
  procs : list Process;
  timers : list (Z * callback);    (* the calls made to [root.after] *)
  destroyed : bool }.

Definition set_self (f : gmap string value -> gmap string value) (st : State) : State :=
  mkState (f (self st)) (countdown_text st) (conns st) (procs st) (timers st) (destroyed st).
Definition set_text (s : string) (st : State) : State :=
  mkState (self st) s (conns st) (procs st) (timers st) (destroyed st).
Definition set_conns (f : list Connection -> list Connection) (st : State) : State :=
  mkState (self st) (countdown_text st) (f (conns st)) (procs st) (timers st) (destroyed st).
Definition set_procs (f : list Process -> list Process) (st : State) : State :=
  mkState (self st) (countdown_text st) (conns st) (f (procs st)) (timers st) (destroyed st).
Definition set_timers (f : list (Z * callback) -> list (Z * callback)) (st : State) : State :=
  mkState (self st) (countdown_text st) (conns st) (procs st) (f (timers st)) (destroyed st).
Definition set_destroyed (b : bool) (st : State) : State :=
  mkState (self st) (countdown_text st) (conns st) (procs st) (timers st) b.

Definition set_status (l : liveness) (P : Process) : Process :=
  mkProcess (start_num P) (pipe_out P) (todo P) l (joined P).
Definition set_todo (tr : list event) (P : Process) : Process :=
  mkProcess (start_num P) (pipe_out P) tr (status P) (joined P).
Definition set_joined (P : Process) : Process :=
  mkProcess (start_num P) (pipe_out P) (todo P) (status P) true.
Definition push (v : Z) (C : Connection) : Connection :=
  mkConnection (inbox C ++ [v]) (peer C) (peer_closed C).
Definition set_inbox (q : list Z) (C : Connection) : Connection :=
  mkConnection q (peer C) (peer_closed C).
Definition close_peer (C : Connection) : Connection :=
  mkConnection (inbox C) (peer C) true.

(** Before [Window(root)] runs. *)
Definition empty : State := mkState ∅ "" [] [] [] false.

(** *** The monad of the methods: a state that survives an exception *)

Definition M (A : Type) : Type := State -> State * outcome A.

Definition ret {A} (a : A) : M A := fun st => (st, Returned a).
Definition raise {A} (e : exn) : M A := fun st => (st, Raised e).
Definition bind {A B} (m : M A) (k : A -> M B) : M B := fun st =>
  match m st with
  | (st', Returned a) => k a st'
  | (st', Raised e) => (st', Raised e)
  | (st', Blocked) => (st', Blocked)
  end.

#[global] Instance M_ret : MRet M := @ret.
#[global] Instance M_bind : MBind M := fun A B k m => bind m k.

(** The text of [f"{num}"], inside a method. *)
Definition fstring (num : Z) : M string := fun st => (st, format_int num).

(** [self.name] and [self.name = v]. *)
Definition getattr (name : string) : M value := fun st =>
  match self st !! name with
  | Some v => (st, Returned v)
  | None => (st, Raised (AttributeError name))
  end.
Definition setattr (name : string) (v : value) : M unit := fun st =>
  (set_self (insert name v) st, Returned tt).

(** *** Tkinter, by the contract the window consumes *)

Definition StringVar : M value := fun st => (set_text "" st, Returned VStringVar).

Definition StringVar_set (obj : value) (s : string) : M unit :=
  match obj with
  | VStringVar => fun st => (set_text s st, Returned tt)
  | _ => raise (AttributeError "set")
  end.

Definition after (obj : value) (ms : Z) (cb : callback) : M unit :=
  match obj with
  | VTk => fun st => (set_timers (fun l => l ++ [(ms, cb)]) st, Returned tt)
  | _ => raise (AttributeError "after")
  end.

(** [root.destroy()]; Tk refuses it on an application that is destroyed
    already. *)
Definition destroy (obj : value) : M unit :=
  match obj with
  | VTk => fun st =>
      if destroyed st then (st, Raised TclError)
      else (set_destroyed true st, Returned tt)
  | _ => raise (AttributeError "destroy")
  end.

(** *** multiprocessing *)

(** [multiprocessing.Pipe()]: two fresh ends, each the peer of the other. *)
Definition Pipe : M (nat * nat) := fun st =>
  let c := length (conns st) in
  (set_conns (fun l => l ++ [mkConnection [] (S c) false; mkConnection [] c false]) st,
   Returned (c, S c)).

(** [multiprocessing.Process(target=decrement, args=(start, pipe))]. *)
Definition Process_new (start : Z) (pipe : nat) : M value := fun st =>
  (set_procs (fun l => l ++ [mkProcess start pipe [] Initial false]) st,
   Returned (VProcess (length (procs st)))).

(** The process [p] of the store, changed by [f]. *)
Definition with_process {A} (obj : value) (meth : string)
    (f : nat -> Process -> M A) : M A :=
  match obj with
  | VProcess p => fun st =>
      match procs st !! p with
      | Some P => f p P st
      | None => (st, Raised (AttributeError meth))
      end
  | _ => raise (AttributeError meth)
  end.

Definition put_process (p : nat) (P : Process) : M unit := fun st =>
  (set_procs (fun l => <[p := P]> l) st, Returned tt).

(** [process.start()]: the child begins to run [decrement] on its arguments. *)
Definition start (obj : value) : M unit :=
  with_process obj "start" (fun p P =>
    match status P with
    | Initial => put_process p (set_status Alive (set_todo (decrement (start_num P) (pipe_out P)) P))
    | _ => raise AssertionError
    end).

Definition is_alive (obj : value) : M bool :=
  with_process obj "is_alive" (fun p P =>
    ret (bool_decide (status P = Alive))).

(** A value sent on end [c] lands in the inbox of the peer of [c]. *)
Definition deliver (c : nat) (v : Z) (l : list Connection) : list Connection :=
  match l !! c with
  | Some C => alter (push v) (peer C) l
  | None => l
  end.

Definition deliver_all (tr : list event) (l : list Connection) : list Connection :=
  foldl (fun l e => match e with Send c v => deliver c v l | Sleep _ => l end) l tr.

(** [process.join()]: waits for the child to exit, so whatever the child had
    still to send has been sent when the call returns. *)
Definition join (obj : value) : M unit :=
  with_process obj "join" (fun p P =>
    match status P with
    | Initial => raise AssertionError
    | Alive => fun st =>
        (set_conns (deliver_all (todo P))
           (set_procs (fun l => <[p := set_joined (set_status Exited (set_todo [] P))]> l) st),
         Returned tt)
    | Exited | Killed => put_process p (set_joined P)
    end).

(** [process.kill()]: the child stops where it is. *)
Definition kill (obj : value) : M unit :=
  with_process obj "kill" (fun p P =>
    match status P with
    | Initial => raise (AttributeError "kill")
    | Alive => put_process p (set_status Killed P)
    | _ => ret tt
    end).

Definition with_connection {A} (obj : value) (meth : string)
    (f : nat -> Connection -> M A) : M A :=
  match obj with
  | VConnection c => fun st =>
      match conns st !! c with
      | Some C => f c C st
      | None => (st, Raised (AttributeError meth))
      end
  | _ => raise (AttributeError meth)
  end.

(** [conn.poll(timeout)], on the channel as it is when the bounded wait
    ends: true when a value waits or the other end is closed. *)
Definition poll (obj : value) : M bool :=
  with_connection obj "poll" (fun c C =>
    ret (match inbox C with [] => peer_closed C | _ :: _ => true end)).

(** [conn.recv()]. *)
Definition recv (obj : value) : M Z :=
  with_connection obj "recv" (fun c C =>
    match inbox C with
    | v :: q => fun st => (set_conns (fun l => <[c := set_inbox q C]> l) st, Returned v)
    | [] => if peer_closed C then raise EOFError else fun st => (st, Blocked)
    end).

End Store.

(** ** The window *)

Module Window.
Import Worker Py Store.

(** [Window.__init__(self, root)] *)
Definition __init__ (root : value) : M unit :=
  setattr "root" root;;
  setattr "label" VWidget;;
  setattr "button" VWidget;;
  var ← StringVar;
  setattr "countdown_var" var;;
  setattr "countdown_label" VWidget;;
  setattr "countdown_thread" VNone.

(** [Window.do_countdown(self)] *)
Definition do_countdown : M unit :=
  '(gui_pipe, process_pipe) ← Pipe;
  setattr "gui_pipe" (VConnection gui_pipe);;
  t ← Process_new 10 process_pipe;
  setattr "countdown_thread" t;;
  t ← getattr "countdown_thread";
  start t;;
  parent ← getattr "parent";
  after parent 100 cb_update.

(** [Window.update(self)] *)
Definition update : M unit :=
  gui_pipe ← getattr "gui_pipe";
  ready ← poll gui_pipe;
  if ready : bool then
    gui_pipe ← getattr "gui_pipe";
    num ← recv gui_pipe;
    if num =? 0 then
      t ← getattr "countdown_thread";
      join t;;
      var ← getattr "countdown_var";
      StringVar_set var "End!";;
      root ← getattr "root";
      after root 1000 cb_clear_countdown_label
    else
      var ← getattr "countdown_var";
      text ← fstring num;
      StringVar_set var text;;
      root ← getattr "root";
      after root 100 cb_update
  else ret tt.

(** [Window.clear_countdown_label(self)] *)
Definition clear_countdown_label : M unit :=
  var ← getattr "countdown_var";
  StringVar_set var "".

(** [Window.on_close(self)] *)
Definition on_close : M unit :=
  t ← getattr "countdown_thread";
  live ←
    (if bool_decide (t <> VNone)
     then t ← getattr "countdown_thread"; is_alive t
     else ret false);
  (if live : bool
   then t ← getattr "countdown_thread"; kill t
   else ret tt);;
  root ← getattr "root";
  destroy root.

(** What the event loop runs for a callback. *)
Definition run_callback (cb : callback) : M unit :=
  match cb with
  | cb_update => update
  | cb_clear_countdown_label => clear_countdown_label
  end.

(** The program as [main.py] starts it: [mainApp = Window(root)]. *)
Definition started : State := (__init__ VTk empty).1.

End Window.

(** ** The running program: the event loop and the worker processes *)

Module System.
Import Worker Py Store Window.

(** What the event loop can be asked to run: the button's command, a
    callback handed to [root.after], the window-close protocol. *)
Inductive action :=
| click
| fire (cb : callback)
| close.

Definition handler (a : action) : M unit :=
  match a with
  | click => do_countdown
  | fire cb => run_callback cb
  | close => on_close
  end.

(** The next thing process [p], found as [P], does on its own. *)
Definition worker_step (p : nat) (P : Process) (st : State) : State :=
  match todo P with
  | Send c v :: rest =>
      set_conns (deliver c v) (set_procs (fun l => <[p := set_todo rest P]> l) st)
  | Sleep _ :: rest => set_procs (fun l => <[p := set_todo rest P]> l) st
  | [] => set_procs (fun l => <[p := set_status Exited P]> l) st
  end.

(** The end [c] of a channel goes away: its peer sees the end of file. *)
Definition hang_up (c : nat) (l : list Connection) : list Connection :=
  match l !! c with
  | Some C => alter close_peer (peer C) l
  | None => l
  end.

(** The event loop runs a handler to its end (an exception is reported and
    the loop goes on with the store as the handler left it), a live worker
    takes a step, or the end held by a dead worker is closed. Handlers may
    run in any order and at any time. *)
Inductive step : State -> State -> Prop :=
| step_gui a st : step st (handler a st).1
| step_worker p P st :
    procs st !! p = Some P -> status P = Alive -> step st (worker_step p P st)
| step_hang_up p P st :
    procs st !! p = Some P -> status P = Exited \/ status P = Killed ->
    step st (set_conns (hang_up (pipe_out P)) st).

Inductive reachable : State -> Prop :=
| reachable_started : reachable started
| reachable_step st st' : reachable st -> step st st' -> reachable st'.

End System.

(** ** Vocabulary of the properties *)

(** The shape the description gives to a run: [n] values that satisfy
    [P], strictly decreasing and pairwise distinct, then one final [0]. *)
Definition countdown_shape (P : Z -> Prop) (n : Z) (tr : list Z) : Prop :=
  exists l, tr = l ++ [0] /\ Z.of_nat (length l) = n /\
            Forall P l /\ StronglySorted Z.gt l /\ NoDup l.

(** *** Reading a decimal numeral *)

Definition is_digit (a : ascii) : bool :=
  (48 <=? nat_of_ascii a)%nat && (nat_of_ascii a <=? 57)%nat.

Definition digit_value (a : ascii) : Z := Z.of_nat (nat_of_ascii a) - 48.

Definition decimal_value (l : list ascii) : Z :=
  foldl (fun acc a => 10 * acc + digit_value a) 0 l.

(** [s] is the decimal numeral of [v]: digits only (so no sign), at least
    one, the first of them not a zero, and read back they give [v]. *)
Definition decimal_of (s : string) (v : Z) : Prop :=
  let l := list_ascii_of_string s in
  l <> [] /\ Forall (fun a => is_digit a = true) l /\
  head l <> Some "0"%char /\ decimal_value l = v.

(** *** The window object between two callbacks *)

Section WindowShape.
Import Worker Py Store.

(** The attributes [__init__] leaves behind, apart from the worker slot. *)
Definition base_attrs : gmap string value :=
  <["countdown_label" := VWidget]> (<["countdown_var" := VStringVar]>
  (<["button" := VWidget]> (<["label" := VWidget]> (<["root" := VTk]> ∅)))).

Definition thread_value (th : option nat) : value :=
  match th with Some p => VProcess p | None => VNone end.

(** The attributes of a window whose worker slot holds [th] ([None] for
    Python's [None]) and whose [gui_pipe], once assigned, is [gp]. *)
Definition attrs (th gp : option nat) : gmap string value :=
  let m := <["countdown_thread" := thread_value th]> base_attrs in
  match gp with
  | Some c => <["gui_pipe" := VConnection c]> m
  | None => m
  end.

(** What holds of the store whenever the event loop is about to run a
    callback of the window. *)
Record Window_inv (st : State) (th gp : option nat) : Prop := {
  inv_self : self st = attrs th gp;
  inv_thread : forall p, th = Some p ->
    exists P, procs st !! p = Some P /\ status P <> Initial;
  inv_pipe : forall c, gp = Some c -> is_Some (conns st !! c) /\ is_Some th }.

(** The store a call of [do_countdown] leaves behind. *)
Definition restarted (st : State) : State :=
  let c := length (conns st) in
  mkState (attrs (Some (length (procs st))) (Some c))
          (countdown_text st)
          (conns st ++ [mkConnection [] (S c) false; mkConnection [] c false])
          (procs st ++ [mkProcess 10 (S c) (decrement 10 (S c)) Alive false])
          (timers st)
          (destroyed st).

(** The store after [gui_pipe.recv()] took the head of the inbox of end [c]. *)
Definition received (c : nat) (C : Connection) (q : list Z) (st : State) : State :=
  set_conns (fun l => <[c := set_inbox q C]> l) st.

(** The store after [join()] returned for process [p], found as [P]. *)
Definition joined_store (p : nat) (P : Process) (st : State) : State :=
  match status P with
  | Alive =>
      set_conns (deliver_all (todo P))
        (set_procs (fun l => <[p := set_joined (set_status Exited (set_todo [] P))]> l) st)
  | _ => set_procs (fun l => <[p := set_joined P]> l) st
  end.

(** The store after [root.after(ms, cb)]. *)
Definition scheduled (ms : Z) (cb : callback) (st : State) : State :=
  set_timers (fun l => l ++ [(ms, cb)]) st.

(** What the label may show: nothing, the decimal form of a positive
    value, or the closing word. *)
Definition display_ok (s : string) : Prop :=
  s = "" \/ s = "End!" \/ exists v, 0 < v /\ s = str v.

(** Only non-negative values are in flight: in what the workers have still
    to send, and in what waits at the ends of the channels. *)
Definition procs_ok (ps : list Process) : Prop :=
  Forall (fun P => Forall (Z.le 0) (sent (todo P))) ps.
Definition conns_ok (cs : list Connection) : Prop :=
  Forall (fun C => Forall (Z.le 0) (inbox C)) cs.

Definition System_inv (st : State) : Prop :=
  (exists th gp, Window_inv st th gp) /\
  procs_ok (procs st) /\ conns_ok (conns st) /\ display_ok (countdown_text st).

(** *** Stores met during a countdown *)

(** Right after the button was pressed on a fresh window. *)
Definition running : State := restarted Window.started.

(** The worker has sent its first value, 9, and sleeps. *)
Definition first_value_sent : State :=
  System.worker_step 0 (mkProcess 10 1 (decrement 10 1) Alive false) running.

(** The label shows 1, the 0 that ends the loop waits in the channel and the
    worker sleeps before its trailing send. *)
Definition last_value_sent : State :=
  mkState (attrs (Some 0%nat) (Some 0%nat)) "1"
          [mkConnection [0] 1 false; mkConnection [] 0 false]
          [mkProcess 10 1 [Sleep 500; Send 1 0] Alive false]
          [(100, cb_update)] false.

End WindowShape.

(** ** The event loop as Tk runs it *)

Module Loop.
Import Worker Py Store Window.

(** [root.mainloop()]: the button runs its command, a callback runs only
    if some call of [root.after] asked for it, the close protocol runs
    [on_close]; beside the loop the workers go on and dead ends are closed. *)
Inductive step : State -> State -> Prop :=
| step_button st : step st (do_countdown st).1
| step_timer ms cb st : (ms, cb) ∈ timers st -> step st (run_callback cb st).1
| step_protocol st : step st (on_close st).1
| step_process p P st :
    procs st !! p = Some P -> status P = Alive ->
    step st (System.worker_step p P st)
| step_closed p P st :
    procs st !! p = Some P -> status P = Exited \/ status P = Killed ->
    step st (set_conns (System.hang_up (pipe_out P)) st).

Inductive reachable : State -> Prop :=
| loop_started : reachable started
| loop_next st st' : reachable st -> step st st' -> reachable st'.

End Loop.

(** ** Further vocabulary *)

Section Coverage.
Import Worker Py Store Window.

(** [k] polls in a row, whatever each of them returns. *)
Fixpoint polls (k : nat) (st : State) : State :=
  match k with
  | O => st
  | S k => polls k (update st).1
  end.

(** Process [p] takes up to [k] steps of its own, as long as it is alive. *)
Fixpoint works (k : nat) (p : nat) (st : State) : State :=
  match k with
  | O => st
  | S k =>
      match procs st !! p with
      | Some P =>
          if bool_decide (status P = Alive)
          then works k p (System.worker_step p P st)
          else st
      | None => st
      end
  end.

(** The time a run of the worker spends asleep, in milliseconds. *)
Definition slept (tr : list event) : Z :=
  foldr (fun e acc => match e with Sleep ms => ms + acc | Send _ _ => acc end) 0 tr.

(** Reading a label back: an optional minus sign, then a numeral. *)
Definition int_of_str (s : string) : Z :=
  match s with
  | String a r =>
      if Ascii.eqb a "-" then - decimal_value (list_ascii_of_string r)
      else decimal_value (list_ascii_of_string s)
  | EmptyString => 0
  end.

(** What one handler can have done to a well-formed window, as a change of
    the store. *)
Inductive handled (st : State) (th gp : option nat) : State -> Prop :=
| handled_nothing : handled st th gp st
| handled_restart : handled st th gp (restarted st)
| handled_number c C v q :
    gp = Some c -> conns st !! c = Some C -> inbox C = v :: q -> v <> 0 ->
    handled st th gp (scheduled 100 cb_update (set_text (str v) (received c C q st)))
| handled_oversized c C v q :
    gp = Some c -> conns st !! c = Some C -> inbox C = v :: q -> v <> 0 ->
    handled st th gp (received c C q st)
| handled_zero c C q p P :
    gp = Some c -> conns st !! c = Some C -> inbox C = 0 :: q ->
    th = Some p -> procs st !! p = Some P -> status P <> Initial ->
    handled st th gp
      (scheduled 1000 cb_clear_countdown_label
         (set_text "End!" (joined_store p P (received c C q st))))
| handled_clear : handled st th gp (set_text "" st)
| handled_kill p P :
    th = Some p -> procs st !! p = Some P -> status P = Alive ->
    handled st th gp
      (set_destroyed true (set_procs (fun l => <[p := set_status Killed P]> l) st))
| handled_destroy : handled st th gp (set_destroyed true st).

(** What holds of one process of the store, given the timers and whether
    the window is destroyed. *)
Definition proc_good (tm : list (Z * callback)) (d : bool) (p : nat) (P : Process) : Prop :=
  start_num P = 10 /\ status P <> Initial /\ pipe_out P = S (2 * p) /\
  (status P = Killed -> d = true) /\
  (joined P = true -> (1000, cb_clear_countdown_label) ∈ tm).

Definition timer_known (t : Z * callback) : Prop :=
  t = (100, cb_update) \/ t = (1000, cb_clear_countdown_label).

Record Program_inv (st : State) : Prop := {
  prog_window : exists th gp,
    Window_inv st th gp /\
    (forall p, th = Some p -> S p = length (procs st)) /\
    (forall c, gp = Some c -> S (S c) = length (conns st));
  prog_pipes : length (conns st) = (2 * length (procs st))%nat;
  prog_procs : forall p P, procs st !! p = Some P ->
    proc_good (timers st) (destroyed st) p P;
  prog_timers : Forall timer_known (timers st) }.

(** As Tk runs the program, nothing has been shown and nobody waited for. *)
Definition Loop_inv (st : State) : Prop :=
  (exists th gp, Window_inv st th gp) /\
  timers st = [] /\ countdown_text st = "" /\
  (forall p P, procs st !! p = Some P -> joined P = false).

(** The label shows 3, the loop's values 2, 1, 0 wait in the channel and
    the worker sleeps before its trailing send. *)
Definition loop_values_sent : State :=
  mkState (attrs (Some 0%nat) (Some 0%nat)) "3"
          [mkConnection [2; 1; 0] 1 false; mkConnection [] 0 false]
          [mkProcess 10 1 [Sleep 500; Send 1 0] Alive false]
          [(100, cb_update)] false.

(** A negative value waits in the channel. *)
Definition negative_sent : State :=
  mkState (attrs (Some 0%nat) (Some 0%nat)) ""
          [mkConnection [-12] 1 false; mkConnection [] 0 false]
          [mkProcess 10 1 [] Alive false]
          [] false.

(** A whole countdown: the worker has sent the ten values of its loop,
    ten polls have read them, the last one joined the worker. *)
Definition countdown_done : State := polls 10 (works 19 0 running).

(** A value of 4301 digits waits in the channel. *)
Definition oversized_sent : State :=
  mkState (attrs (Some 0%nat) (Some 0%nat)) "7"
          [mkConnection [10 ^ int_max_str_digits; 6] 1 false; mkConnection [] 0 false]
          [mkProcess 10 1 [] Alive false]
          [(100, cb_update)] false.

(** The values a countdown from 10 puts on a channel. *)
Definition small (v : Z) : Prop := 0 <= v <= 9.

Definition Values_inv (st : State) : Prop :=
  Forall (fun P => Forall small (sent (todo P))) (procs st) /\
  Forall (fun C => Forall small (inbox C)) (conns st).

(** The window was closed mid-countdown and the worker's end is gone. *)
Definition closed_channel : State :=
  set_conns (System.hang_up 1) (on_close running).1.

End Coverage.

(** * Properties *)

(** ** The worker's sequence *)

Section WorkerSequence.
Import Worker.

Variable pipe_out : nat.

Lemma sent_cons_send c v tr : sent (Send c v :: tr) = v :: sent tr.
Proof. reflexivity. Qed.

Lemma sent_cons_sleep ms tr : sent (Sleep ms :: tr) = sent tr.
Proof. reflexivity. Qed.

Lemma sent_app tr1 tr2 : sent (tr1 ++ tr2) = sent tr1 ++ sent tr2.
Proof. apply omap_app. Qed.

(** One turn of the loop. *)
Lemma decrement_loop_pos n :
  0 < n ->
  decrement_loop n pipe_out =
    Send pipe_out (n - 1) :: Sleep 500 :: decrement_loop (n - 1) pipe_out.
Proof.
  intros Hn. rewrite decrement_loop_equation_1.
  destruct (Z_gt_dec n 0); [reflexivity | lia].
Qed.

Lemma decrement_loop_nonpos n : n <= 0 -> decrement_loop n pipe_out = [].
Proof.
  intros Hn. rewrite decrement_loop_equation_1.
  destruct (Z_gt_dec n 0); [lia | reflexivity].
Qed.

(** What the loop sends: as many values as [n], each below [n] and not
    negative, each smaller than the ones before it. *)
Lemma decrement_loop_sent n :
  0 <= n ->
  Z.of_nat (length (sent (decrement_loop n pipe_out))) = n /\
  Forall (fun v => 0 <= v < n) (sent (decrement_loop n pipe_out)) /\
  StronglySorted Z.gt (sent (decrement_loop n pipe_out)).
Proof.
  intros Hn. pattern n. apply natlike_ind; [| | exact Hn]; clear n Hn.
  - rewrite decrement_loop_nonpos by lia. repeat split; constructor.
  - intros n Hn (Hlen & Hall & Hsort).
    rewrite decrement_loop_pos by lia.
    replace (Z.succ n - 1) with n by lia.
    rewrite sent_cons_send, sent_cons_sleep. cbn [length]. repeat split.
    + lia.
    + constructor; [lia |]. eapply Forall_impl; [exact Hall |]. cbn. lia.
    + constructor; [exact Hsort |]. eapply Forall_impl; [exact Hall |]. cbn. lia.
Qed.

(** The loop's values, position by position. *)
Lemma decrement_loop_lookup n (k : nat) :
  0 <= n -> Z.of_nat k < n ->
  sent (decrement_loop n pipe_out) !! k = Some (n - 1 - Z.of_nat k).
Proof.
  intros Hn. revert k. pattern n. apply natlike_ind; [| | exact Hn]; clear n Hn.
  - intros k Hk. lia.
  - intros n Hn IH k Hk. rewrite decrement_loop_pos by lia.
    replace (Z.succ n - 1) with n by lia.
    rewrite sent_cons_send, sent_cons_sleep.
    destruct k as [| k]; cbn [lookup list_lookup].
    + f_equal. lia.
    + change ((n :: sent (decrement_loop n pipe_out)) !! S k)
        with (sent (decrement_loop n pipe_out) !! k).
      rewrite IH by lia. f_equal. lia.
Qed.

Lemma strictly_decreasing_NoDup (l : list Z) : StronglySorted Z.gt l -> NoDup l.
Proof.
  induction 1 as [| x l Hs IH Hall]; constructor; [| exact IH].
  intros Hin. rewrite Forall_forall in Hall. specialize (Hall x Hin). lia.
Qed.

Lemma decrement_sent n :
  sent (decrement n pipe_out) = sent (decrement_loop n pipe_out) ++ [0].
Proof. unfold decrement. rewrite sent_app. reflexivity. Qed.

End WorkerSequence.

(** C3, as stated, fails: started at 3 the worker sends 2, 1, 0, 0, which is
    not three positive values followed by one 0. *)
Lemma decrement_three_not_all_positive :
  ~ countdown_shape (fun v => 0 < v) 3 (Worker.sent (Worker.decrement 3 0)).
Proof.
  intros (l & Heq & Hlen & Hpos & _).
  change (Worker.sent (Worker.decrement 3 0)) with ([2; 1; 0] ++ [0]) in Heq.
  apply app_inj_tail in Heq as [<- _].
  repeat (apply Forall_cons in Hpos as [? Hpos]). lia.
Qed.

(** C3, amended: for every [start_num >= 0] the worker sends exactly
    [start_num] distinct non-negative values in strictly decreasing order,
    namely [start_num - 1] down to 0 (the value at position [k] is
    [start_num - 1 - k], the last of them is the [0] the loop reaches),
    followed by exactly one further [0] as the final message. *)
Theorem decrement_sends_countdown (pipe_out : nat) (start_num : Z) :
  0 <= start_num ->
  countdown_shape (fun v => 0 <= v) start_num
    (Worker.sent (Worker.decrement start_num pipe_out)) /\
  length (Worker.sent (Worker.decrement start_num pipe_out)) = S (Z.to_nat start_num) /\
  (forall k : nat, Z.of_nat k < start_num ->
     Worker.sent (Worker.decrement start_num pipe_out) !! k
     = Some (start_num - 1 - Z.of_nat k)) /\
  Worker.sent (Worker.decrement start_num pipe_out) !! Z.to_nat start_num = Some 0.
Proof.
  intros Hn. destruct (decrement_loop_sent pipe_out start_num Hn) as (Hlen & Hall & Hsort).
  assert (length (Worker.sent (Worker.decrement_loop start_num pipe_out))
          = Z.to_nat start_num) as Hlen' by lia.
  split; [| split; [| split]].
  - exists (Worker.sent (Worker.decrement_loop start_num pipe_out)).
    repeat split.
    + apply decrement_sent.
    + exact Hlen.
    + eapply Forall_impl; [exact Hall |]. cbn. lia.
    + exact Hsort.
    + apply strictly_decreasing_NoDup, Hsort.
  - rewrite decrement_sent, length_app, Hlen'. cbn. lia.
  - intros k Hk. rewrite decrement_sent, lookup_app_l by lia.
    apply decrement_loop_lookup; assumption.
  - rewrite decrement_sent. apply list_lookup_middle. symmetry. exact Hlen'.
Qed.

Lemma decrement_sends_countdown_witness :
  0 <= 3 /\
  countdown_shape (fun v => 0 <= v) 3 (Worker.sent (Worker.decrement 3 0)) /\
  length (Worker.sent (Worker.decrement 3 0)) = S (Z.to_nat 3) /\
  (forall k : nat, Z.of_nat k < 3 ->
     Worker.sent (Worker.decrement 3 0) !! k = Some (3 - 1 - Z.of_nat k)) /\
  Worker.sent (Worker.decrement 3 0) !! Z.to_nat 3 = Some 0.
Proof. split; [lia | apply (decrement_sends_countdown 0 3); lia]. Defined.

(** C4: started at 3 the loop sends 2, 1, 0 and the trailing send adds one
    more 0, so the channel carries 2, 1, 0, 0; started at 0 the loop body
    does not run and the single trailing 0 is all that is sent. *)
Theorem decrement_scenarios (pipe_out : nat) :
  Worker.sent (Worker.decrement_loop 3 pipe_out) = [2; 1; 0] /\
  Worker.sent (Worker.decrement 3 pipe_out) = [2; 1; 0; 0] /\
  Worker.decrement_loop 0 pipe_out = [] /\
  Worker.decrement 0 pipe_out = [Worker.Send pipe_out 0].
Proof. repeat split; reflexivity. Qed.


(** ** The decimal form of a positive integer *)

Section Decimal.
Import Py.

Lemma digit_char_spec d :
  0 <= d < 10 ->
  is_digit (digit_char d) = true /\ digit_value (digit_char d) = d /\
  (0 < d -> digit_char d <> "0"%char).
Proof.
  intros Hd.
  assert (d = 0 \/ d = 1 \/ d = 2 \/ d = 3 \/ d = 4 \/ d = 5 \/ d = 6 \/
          d = 7 \/ d = 8 \/ d = 9) as Hcases by lia.
  repeat (destruct Hcases as [-> | Hcases]); try subst d;
    (split; [reflexivity | split; [reflexivity | intros ?; try lia; discriminate]]).
Qed.

Lemma digits_small n : n < 10 -> digits n = [digit_char n].
Proof.
  intros Hn. rewrite digits_equation_1.
  destruct (Z_lt_dec n 10); [reflexivity | lia].
Qed.

Lemma digits_large n :
  10 <= n -> digits n = digits (n / 10) ++ [digit_char (n mod 10)].
Proof.
  intros Hn. rewrite digits_equation_1.
  destruct (Z_lt_dec n 10); [lia | reflexivity].
Qed.

Lemma decimal_value_snoc l a :
  decimal_value (l ++ [a]) = 10 * decimal_value l + digit_value a.
Proof. unfold decimal_value. rewrite foldl_app. reflexivity. Qed.

Lemma digits_spec n :
  0 <= n ->
  digits n <> [] /\ Forall (fun a => is_digit a = true) (digits n) /\
  decimal_value (digits n) = n /\ (0 < n -> head (digits n) <> Some "0"%char).
Proof.
  intros Hn. generalize Hn. pattern n. apply Z_lt_induction; [| exact Hn].
  clear n Hn. intros n IH Hn.
  destruct (Z_lt_dec n 10) as [Hlt | Hge].
  - intros. rewrite digits_small by exact Hlt.
    destruct (digit_char_spec n) as (Hd & Hv & Hz); [lia |].
    repeat split.
    + discriminate.
    + constructor; [exact Hd | constructor].
    + unfold decimal_value. cbn. lia.
    + intros Hpos [= Heq]. exact (Hz Hpos Heq).
  - rewrite digits_large by lia.
    assert (0 < n / 10 < n) as Hq.
    { split; [apply Z.div_str_pos; lia | apply Z.div_lt; lia]. }
    destruct (IH (n / 10)) as (Hne & Hall & Hval & Hhd); [lia | lia |].
    destruct (digit_char_spec (n mod 10)) as (Hd & Hv & _).
    { apply Z.mod_pos_bound. lia. }
    repeat split.
    + intros Heq. apply app_eq_nil in Heq as [_ ?]. discriminate.
    + apply Forall_app. split; [exact Hall | constructor; [exact Hd | constructor]].
    + rewrite decimal_value_snoc, Hval, Hv.
      pose proof (Z.div_mod n 10). lia.
    + intros _. destruct (digits (n / 10)) as [| a l] eqn:E; [contradiction |].
      cbn. cbn in Hhd. apply Hhd. lia.
Qed.

Lemma str_positive v : 0 < v -> decimal_of (str v) v.
Proof.
  intros Hv. unfold decimal_of, str.
  destruct (Z.ltb_spec v 0) as [? | _]; [lia |].
  cbv zeta. rewrite list_ascii_of_string_of_list_ascii.
  destruct (digits_spec v) as (Hne & Hall & Hval & Hhd); [lia |].
  repeat split; auto.
Qed.

(** The digits are at most [k] exactly below the [k]-th power of ten. *)
Lemma digits_length v :
  0 <= v -> forall k, 1 <= k ->
  (Z.of_nat (length (digits v)) <= k <-> v < 10 ^ k).
Proof.
  intros Hv. generalize Hv. pattern v. apply Z_lt_induction; [| exact Hv].
  clear v Hv. intros v IH Hv k Hk.
  assert (10 ^ k = 10 * 10 ^ (k - 1)) as Hpow.
  { rewrite <- Z.pow_succ_r by lia. f_equal. lia. }
  assert (0 < 10 ^ (k - 1)) as Hpos by (apply Z.pow_pos_nonneg; lia).
  destruct (Z_lt_dec v 10) as [Hlt | Hge].
  - rewrite digits_small by exact Hlt. cbn [length]. split; intros _; lia.
  - rewrite digits_large by lia. rewrite length_app. cbn [length].
    pose proof (Z.div_mod v 10 ltac:(lia)) as Hdm.
    pose proof (Z.mod_pos_bound v 10 ltac:(lia)) as Hmod.
    destruct (digits_spec (v / 10)) as (Hne & _); [apply Z.div_pos; lia |].
    assert (1 <= Z.of_nat (length (digits (v / 10)))) as Hlen.
    { destruct (digits (v / 10)); [contradiction | cbn [length]; lia]. }
    destruct (Z.eq_dec k 1) as [-> | Hk1].
    + change (10 ^ 1) with 10. split; intros ?; lia.
    + specialize (IH (v / 10) ltac:(lia) ltac:(lia) (k - 1) ltac:(lia)).
      rewrite Hpow. split; intros H.
      * assert (v / 10 < 10 ^ (k - 1)) by (apply IH; lia). lia.
      * assert (v / 10 < 10 ^ (k - 1)) as H' by lia. apply IH in H'. lia.
Qed.

Lemma fits_iff v : fits v <-> Z.abs v < 10 ^ int_max_str_digits.
Proof.
  unfold fits. apply digits_length; [lia |]. unfold int_max_str_digits. lia.
Qed.

Lemma fits_digit v : 0 <= v < 10 -> fits v.
Proof.
  intros Hv. unfold fits. rewrite Z.abs_eq by lia.
  rewrite digits_small by lia. unfold int_max_str_digits. cbn [length]. lia.
Qed.

Lemma str_positive_not_zero v : 0 < v -> str v <> "0".
Proof.
  intros Hv Heq. destruct (str_positive v Hv) as (_ & _ & Hhd & _).
  rewrite Heq in Hhd. apply Hhd. reflexivity.
Qed.

End Decimal.

(** ** The attributes of the window *)

Section WindowAttributes.
Import Py Store Window.

Lemma attrs_root th gp : attrs th gp !! "root" = Some VTk.
Proof. destruct gp; reflexivity. Qed.

Lemma attrs_countdown_var th gp : attrs th gp !! "countdown_var" = Some VStringVar.
Proof. destruct gp; reflexivity. Qed.

Lemma attrs_countdown_thread th gp :
  attrs th gp !! "countdown_thread" = Some (thread_value th).
Proof. destruct gp; reflexivity. Qed.

Lemma attrs_gui_pipe th gp : attrs th gp !! "gui_pipe" = VConnection <$> gp.
Proof. destruct gp; reflexivity. Qed.

Lemma attrs_parent th gp : attrs th gp !! "parent" = None.
Proof. destruct gp; reflexivity. Qed.

(** Assigning the two attributes of [do_countdown], in its order. *)
Lemma attrs_restart th gp p c :
  <["countdown_thread" := VProcess p]> (<["gui_pipe" := VConnection c]> (attrs th gp))
  = attrs (Some p) (Some c).
Proof. destruct gp; reflexivity. Qed.

(** Only the worker slot holds a process and only [gui_pipe] a channel end. *)
Lemma attrs_process th gp name p :
  attrs th gp !! name = Some (VProcess p) -> name = "countdown_thread" /\ th = Some p.
Proof.
  unfold attrs, base_attrs. intros H.
  destruct gp; repeat (rewrite lookup_insert in H; case_decide; simplify_eq);
    try (rewrite lookup_empty in H; discriminate);
    destruct th; simplify_eq/=; auto.
Qed.

Lemma attrs_connection th gp name c :
  attrs th gp !! name = Some (VConnection c) -> name = "gui_pipe" /\ gp = Some c.
Proof.
  unfold attrs, base_attrs. intros H.
  destruct gp; repeat (rewrite lookup_insert in H; case_decide; simplify_eq);
    try (rewrite lookup_empty in H; discriminate);
    destruct th; simplify_eq/=; auto.
Qed.

Lemma started_inv : Window_inv started None None.
Proof.
  split; [reflexivity | discriminate | discriminate].
Qed.

End WindowAttributes.

(** ** The methods of the window, one by one *)

Section WindowMethods.
Import Worker Py Store Window.

(** Unfolds one method on a store whose parts are known. *)
Ltac run :=
  unfold do_countdown, update, clear_countdown_label, on_close;
  repeat (unfold mbind, M_bind, mret, M_ret, bind, ret, raise, getattr, setattr,
            StringVar_set, after, destroy, Pipe, Process_new, with_process,
            with_connection, put_process, start, is_alive, join, kill, poll, recv,
            fstring, format_int,
            set_self, set_text, set_conns, set_procs, set_timers, set_destroyed,
            set_status, set_todo, set_joined, set_inbox, restarted, received,
            joined_store, scheduled;
          cbn [self countdown_text conns procs timers destroyed
               set_self set_text set_conns set_procs set_timers set_destroyed
               start_num pipe_out todo status joined inbox peer peer_closed
               set_status set_todo set_joined set_inbox thread_value
               fmap option_fmap option_map];
          try rewrite attrs_restart;
          try rewrite attrs_root; try rewrite attrs_countdown_var;
          try rewrite attrs_countdown_thread; try rewrite attrs_gui_pipe;
          try rewrite attrs_parent;
          repeat match goal with
                 | H : _ !! _ = Some _ |- _ => rewrite H
                 | H : inbox _ = _ |- _ => rewrite H
                 | H : peer_closed _ = _ |- _ => rewrite H
                 | H : status _ = _ |- _ => rewrite H
                 end).

Lemma do_countdown_run st th gp :
  Window_inv st th gp ->
  do_countdown st = (restarted st, Raised (AttributeError "parent")).
Proof.
  intros [Hself _ _]. destruct st as [sf txt cs ps tm d]. cbn [self conns procs] in *. subst sf.
  run.
  rewrite list_lookup_middle by reflexivity. run.
  rewrite insert_app_r_alt, Nat.sub_diag by lia.
  reflexivity.
Qed.

Lemma update_run_unassigned st th :
  Window_inv st th None ->
  update st = (st, Raised (AttributeError "gui_pipe")).
Proof.
  intros [Hself _ _]. destruct st as [sf txt cs ps tm d]. cbn [self conns procs] in *. subst sf.
  run. reflexivity.
Qed.

Lemma update_run_empty st th gp c C :
  Window_inv st th gp -> gp = Some c -> conns st !! c = Some C ->
  inbox C = [] -> peer_closed C = false ->
  update st = (st, Returned tt).
Proof.
  intros [Hself _ _] -> Hc Hin Hcl.
  destruct st as [sf txt cs ps tm d]. cbn [self conns procs] in *. subst sf.
  run. reflexivity.
Qed.

Lemma update_run_eof st th gp c C :
  Window_inv st th gp -> gp = Some c -> conns st !! c = Some C ->
  inbox C = [] -> peer_closed C = true ->
  update st = (st, Raised EOFError).
Proof.
  intros [Hself _ _] -> Hc Hin Hcl.
  destruct st as [sf txt cs ps tm d]. cbn [self conns procs] in *. subst sf.
  run. reflexivity.
Qed.

Lemma update_run_number st th gp c C v q :
  Window_inv st th gp -> gp = Some c -> conns st !! c = Some C ->
  inbox C = v :: q -> v <> 0 -> fits v ->
  update st =
    (scheduled 100 cb_update (set_text (str v) (received c C q st)), Returned tt).
Proof.
  intros [Hself _ _] -> Hc Hin Hv Hfit.
  destruct st as [sf txt cs ps tm d]. cbn [self conns procs] in *. subst sf.
  run. destruct (Z.eqb_spec v 0) as [|_]; [contradiction |].
  run. rewrite (decide_True (P := fits v)) by exact Hfit. run. reflexivity.
Qed.

Lemma update_run_oversized st th gp c C v q :
  Window_inv st th gp -> gp = Some c -> conns st !! c = Some C ->
  inbox C = v :: q -> v <> 0 -> ~ fits v ->
  update st = (received c C q st, Raised ValueError).
Proof.
  intros [Hself _ _] -> Hc Hin Hv Hfit.
  destruct st as [sf txt cs ps tm d]. cbn [self conns procs] in *. subst sf.
  run. destruct (Z.eqb_spec v 0) as [|_]; [contradiction |].
  run. rewrite (decide_False (P := fits v)) by exact Hfit. run. reflexivity.
Qed.

Lemma update_run_zero st th gp c C q p P :
  Window_inv st th gp -> gp = Some c -> conns st !! c = Some C ->
  inbox C = 0 :: q -> th = Some p -> procs st !! p = Some P ->
  status P <> Initial ->
  update st =
    (scheduled 1000 cb_clear_countdown_label
       (set_text "End!" (joined_store p P (received c C q st))), Returned tt).
Proof.
  intros [Hself _ _] -> Hc Hin -> Hp Hst.
  destruct st as [sf txt cs ps tm d]. cbn [self conns procs] in *. subst sf.
  run. change (0 =? 0) with true. cbv iota.
  destruct (status P) eqn:HP; [contradiction | | |]; run; reflexivity.
Qed.

Lemma clear_countdown_label_self st th gp :
  self st = attrs th gp ->
  clear_countdown_label st = (set_text "" st, Returned tt).
Proof.
  intros Hself. destruct st as [sf txt cs ps tm d]. cbn [self conns procs] in *. subst sf.
  run. reflexivity.
Qed.

Lemma clear_countdown_label_run st th gp :
  Window_inv st th gp ->
  clear_countdown_label st = (set_text "" st, Returned tt).
Proof. intros [Hself _ _]. eapply clear_countdown_label_self, Hself. Qed.

Lemma on_close_run_no_worker st gp :
  Window_inv st None gp ->
  on_close st =
    (set_destroyed true st,
     if destroyed st then Raised TclError else Returned tt).
Proof.
  intros [Hself _ _]. destruct st as [sf txt cs ps tm d]. cbn [self conns procs] in *. subst sf.
  run. rewrite (bool_decide_eq_false_2 (VNone <> VNone)) by (intros H; exact (H eq_refl)).
  run. destruct d; reflexivity.
Qed.

Lemma on_close_run_alive st gp p P :
  Window_inv st (Some p) gp -> procs st !! p = Some P -> status P = Alive ->
  on_close st =
    (set_destroyed true (set_procs (fun l => <[p := set_status Killed P]> l) st),
     if destroyed st then Raised TclError else Returned tt).
Proof.
  intros [Hself _ _] Hp HP. destruct st as [sf txt cs ps tm d]. cbn [self conns procs] in *. subst sf.
  run. rewrite (bool_decide_eq_true_2 (VProcess p <> VNone)) by discriminate.
  run. rewrite bool_decide_eq_true_2 by reflexivity. run. destruct d; reflexivity.
Qed.

Lemma on_close_run_dead st gp p P :
  Window_inv st (Some p) gp -> procs st !! p = Some P -> status P <> Alive ->
  on_close st =
    (set_destroyed true st,
     if destroyed st then Raised TclError else Returned tt).
Proof.
  intros [Hself _ _] Hp HP. destruct st as [sf txt cs ps tm d]. cbn [self conns procs] in *. subst sf.
  run. rewrite (bool_decide_eq_true_2 (VProcess p <> VNone)) by discriminate.
  run. rewrite bool_decide_eq_false_2 by exact HP. run. destruct d; reflexivity.
Qed.

Lemma running_inv : Window_inv running (Some 0%nat) (Some 0%nat).
Proof.
  split.
  - reflexivity.
  - intros p [= <-]. eexists. split; [reflexivity | discriminate].
  - intros c [= <-]. split; eexists; reflexivity.
Qed.

Lemma first_value_sent_inv : Window_inv first_value_sent (Some 0%nat) (Some 0%nat).
Proof.
  split.
  - reflexivity.
  - intros p [= <-]. eexists. split; [reflexivity | discriminate].
  - intros c [= <-]. split; eexists; reflexivity.
Qed.

Lemma last_value_sent_inv : Window_inv last_value_sent (Some 0%nat) (Some 0%nat).
Proof.
  split.
  - reflexivity.
  - intros p [= <-]. eexists. split; [reflexivity | discriminate].
  - intros c [= <-]. split; eexists; reflexivity.
Qed.

(** C1, on the code: pressed on a fresh window, [do_countdown] creates the
    channel, starts the worker on its sending end with start value 10 and
    keeps the receiving end and the handle, but then reads [self.parent],
    an attribute no code assigns; the call ends in [AttributeError] and
    the first poll is not handed to the timer. *)
Theorem do_countdown_never_schedules :
  do_countdown started = (running, Raised (AttributeError "parent")) /\
  self running !! "gui_pipe" = Some (VConnection 0) /\
  self running !! "countdown_thread" = Some (VProcess 0) /\
  procs running !! 0%nat = Some (mkProcess 10 1 (decrement 10 1) Alive false) /\
  timers running = [].
Proof.
  split; [exact (do_countdown_run started None None started_inv) |].
  repeat split; reflexivity.
Qed.

(** C2, on the code: a poll that finds the channel empty and open returns
    with the store as it was; the display is unchanged, and so is the list
    of timers: no further poll is scheduled. *)
Theorem update_on_empty_channel_stops_polling :
  conns running !! 0%nat = Some (mkConnection [] 1 false) /\
  update running = (running, Returned tt) /\
  timers (update running).1 = timers running.
Proof.
  split; [reflexivity |].
  assert (update running = (running, Returned tt)) as H.
  { eapply update_run_empty; [exact running_inv | reflexivity..]. }
  split; [exact H | rewrite H; reflexivity].
Qed.

(** C5: when the poll receives 0, [update] returns after joining the
    worker (which is then no longer alive and has been waited for), the
    label reads "End!", the one call made to [after] asks for
    [clear_countdown_label] in 1000 ms, which empties the label, and no
    call asks for another poll. *)
Theorem update_on_zero st th c C q :
  Window_inv st th (Some c) -> conns st !! c = Some C -> inbox C = 0 :: q ->
  exists p P P' st',
    th = Some p /\ procs st !! p = Some P /\
    update st = (st', Returned tt) /\
    procs st' !! p = Some P' /\ joined P' = true /\ status P' <> Alive /\
    countdown_text st' = "End!" /\
    timers st' = timers st ++ [(1000, cb_clear_countdown_label)] /\
    countdown_text (run_callback cb_clear_countdown_label st').1 = "".
Proof.
  intros Hinv Hc Hin.
  destruct (inv_pipe _ _ _ Hinv c eq_refl) as [_ [p ->]].
  destruct (inv_thread _ _ _ Hinv p eq_refl) as (P & Hp & HP).
  pose proof (update_run_zero st _ _ c C q p P Hinv eq_refl Hc Hin eq_refl Hp HP) as Hrun.
  assert (p < length (procs st))%nat as Hlt by (eapply lookup_lt_Some; exact Hp).
  pose proof (inv_self _ _ _ Hinv) as Hself.
  assert (self (joined_store p P (received c C q st)) = self st /\
          timers (joined_store p P (received c C q st)) = timers st) as [Hs Ht].
  { unfold joined_store. destruct (status P); split; reflexivity. }
  assert (exists P', procs (joined_store p P (received c C q st)) !! p = Some P' /\
                     joined P' = true /\ status P' <> Alive) as (P' & HP' & Hj & Hdead).
  { unfold joined_store. destruct (status P) eqn:E; [contradiction | | |]; cbn.
    - exists (set_joined (set_status Exited (set_todo [] P))).
      split; [apply list_lookup_insert_eq, Hlt | split; [reflexivity | discriminate]].
    - exists (set_joined P).
      split; [apply list_lookup_insert_eq, Hlt | split; [reflexivity | cbn; congruence]].
    - exists (set_joined P).
      split; [apply list_lookup_insert_eq, Hlt | split; [reflexivity | cbn; congruence]]. }
  eexists p, P, P', _.
  split; [reflexivity |]. split; [exact Hp |]. split; [exact Hrun |].
  split; [exact HP' |]. split; [exact Hj |]. split; [exact Hdead |].
  split; [reflexivity |].
  split; [cbn; rewrite Ht; reflexivity |].
  cbn [run_callback].
  erewrite clear_countdown_label_self; [reflexivity |].
  cbn. rewrite Hs. exact Hself.
Qed.

Lemma update_on_zero_witness :
  exists p P P' st',
    Some 0%nat = Some p /\ procs last_value_sent !! p = Some P /\
    update last_value_sent = (st', Returned tt) /\
    procs st' !! p = Some P' /\ joined P' = true /\ status P' <> Alive /\
    countdown_text st' = "End!" /\
    timers st' = timers last_value_sent ++ [(1000, cb_clear_countdown_label)] /\
    countdown_text (run_callback cb_clear_countdown_label st').1 = "".
Proof.
  apply (update_on_zero last_value_sent (Some 0%nat) 0%nat
           (mkConnection [0] 1 false) []);
    [exact last_value_sent_inv | reflexivity | reflexivity].
Defined.

(** C6: in every state of the window that is not destroyed yet, [on_close]
    returns without raising; the worker is killed exactly when a handle
    exists and its process is alive: its status is then [Killed], and it
    is killed without being joined (its [joined] flag and its unsent
    values are as they were); in every other case no process changes; the
    window is destroyed and nothing is handed to the timer. *)
Theorem on_close_shutdown st th gp :
  Window_inv st th gp -> destroyed st = false ->
  exists st',
    on_close st = (st', Returned tt) /\
    destroyed st' = true /\
    timers st' = timers st /\
    conns st' = conns st /\
    (forall p P, th = Some p -> procs st !! p = Some P -> status P = Alive ->
       exists P',
         procs st' !! p = Some P' /\ status P' = Killed /\
         joined P' = joined P /\ todo P' = todo P /\
         procs st' = <[p := P']> (procs st)) /\
    ((forall p P, th = Some p -> procs st !! p = Some P -> status P <> Alive) ->
       procs st' = procs st).
Proof.
  intros Hinv Hd. destruct th as [p |].
  - destruct (inv_thread _ _ _ Hinv p eq_refl) as (P & Hp & _).
    destruct (decide (status P = Alive)) as [Halive | Hdead].
    + eexists. split.
      { rewrite (on_close_run_alive st gp p P Hinv Hp Halive), Hd. reflexivity. }
      split; [reflexivity |]. split; [reflexivity |]. split; [reflexivity |]. split.
      * intros p' P' [= <-] Hp' _. rewrite Hp in Hp'. injection Hp' as <-.
        exists (set_status Killed P). cbn.
        split; [apply list_lookup_insert_eq; eapply lookup_lt_Some, Hp |].
        repeat split; reflexivity.
      * intros H. exfalso. exact (H p P eq_refl Hp Halive).
    + eexists. split.
      { rewrite (on_close_run_dead st gp p P Hinv Hp Hdead), Hd. reflexivity. }
      split; [reflexivity |]. split; [reflexivity |]. split; [reflexivity |]. split.
      * intros p' P' [= <-] Hp' Ha. rewrite Hp in Hp'. injection Hp' as <-.
        contradiction.
      * intros _. reflexivity.
  - eexists. split.
    { rewrite (on_close_run_no_worker st gp Hinv), Hd. reflexivity. }
    split; [reflexivity |]. split; [reflexivity |]. split; [reflexivity |]. split.
    + intros p P [=].
    + intros _. reflexivity.
Qed.

Lemma on_close_shutdown_witness :
  exists st',
    on_close running = (st', Returned tt) /\
    destroyed st' = true /\
    timers st' = timers running /\
    conns st' = conns running /\
    (forall p P, Some 0%nat = Some p -> procs running !! p = Some P -> status P = Alive ->
       exists P',
         procs st' !! p = Some P' /\ status P' = Killed /\
         joined P' = joined P /\ todo P' = todo P /\
         procs st' = <[p := P']> (procs running)) /\
    ((forall p P, Some 0%nat = Some p -> procs running !! p = Some P -> status P <> Alive) ->
       procs st' = procs running).
Proof.
  apply (on_close_shutdown running (Some 0%nat) (Some 0%nat));
    [exact running_inv | reflexivity].
Defined.

(** C7: [do_countdown] has no guard. Called on a window that already holds
    a worker and a receiving end, it still makes a fresh channel and a
    fresh worker started at 10 and stores them over the old ones; the old
    process and the old channel end are in the store exactly as before
    (neither joined nor killed), and no attribute of the window refers to
    them any more. *)
Theorem do_countdown_reentry st p_old c_old :
  Window_inv st (Some p_old) (Some c_old) ->
  exists st' r,
    let p := length (procs st) in
    let c := length (conns st) in
    do_countdown st = (st', r) /\
    self st' !! "gui_pipe" = Some (VConnection c) /\ c <> c_old /\
    conns st' !! c = Some (mkConnection [] (S c) false) /\
    conns st' !! S c = Some (mkConnection [] c false) /\
    self st' !! "countdown_thread" = Some (VProcess p) /\ p <> p_old /\
    procs st' !! p = Some (mkProcess 10 (S c) (decrement 10 (S c)) Alive false) /\
    procs st' !! p_old = procs st !! p_old /\
    conns st' !! c_old = conns st !! c_old /\
    (forall name, self st' !! name <> Some (VProcess p_old)) /\
    (forall name, self st' !! name <> Some (VConnection c_old)).
Proof.
  intros Hinv.
  destruct (inv_thread _ _ _ Hinv p_old eq_refl) as (P & Hp & _).
  destruct (inv_pipe _ _ _ Hinv c_old eq_refl) as [[C Hc] _].
  pose proof (lookup_lt_Some _ _ _ Hp) as Hplt.
  pose proof (lookup_lt_Some _ _ _ Hc) as Hclt.
  eexists _, _. cbv zeta. split; [exact (do_countdown_run st _ _ Hinv) |].
  unfold restarted. cbn [self conns procs].
  split; [apply attrs_gui_pipe |]. split; [lia |].
  split; [apply list_lookup_middle; reflexivity |].
  split. { rewrite lookup_app_r by lia. replace (_ - _)%nat with 1%nat by lia. reflexivity. }
  split; [apply attrs_countdown_thread |]. split; [lia |].
  split; [apply list_lookup_middle; reflexivity |].
  split; [apply lookup_app_l, Hplt |].
  split; [apply lookup_app_l, Hclt |].
  split.
  - intros name H. apply attrs_process in H as [_ [= ?]]. lia.
  - intros name H. apply attrs_connection in H as [_ [= ?]]. lia.
Qed.

Lemma do_countdown_reentry_witness :
  exists st' r,
    let p := length (procs running) in
    let c := length (conns running) in
    do_countdown running = (st', r) /\
    self st' !! "gui_pipe" = Some (VConnection c) /\ c <> 0%nat /\
    conns st' !! c = Some (mkConnection [] (S c) false) /\
    conns st' !! S c = Some (mkConnection [] c false) /\
    self st' !! "countdown_thread" = Some (VProcess p) /\ p <> 0%nat /\
    procs st' !! p = Some (mkProcess 10 (S c) (decrement 10 (S c)) Alive false) /\
    procs st' !! 0%nat = procs running !! 0%nat /\
    conns st' !! 0%nat = conns running !! 0%nat /\
    (forall name, self st' !! name <> Some (VProcess 0)) /\
    (forall name, self st' !! name <> Some (VConnection 0)).
Proof. exact (do_countdown_reentry running 0%nat 0%nat running_inv). Defined.

(** C8: when the poll receives a positive value [v] that Python converts
    to text (at most [int_max_str_digits] digits), [update] sets the label
    to [str v], and [str v] is the decimal numeral of [v]: digits only,
    hence no sign, no leading zero, and it reads back as [v]. *)
Theorem update_on_positive st th c C v q :
  Window_inv st th (Some c) -> conns st !! c = Some C -> inbox C = v :: q ->
  0 < v -> fits v ->
  exists st',
    update st = (st', Returned tt) /\
    countdown_text st' = str v /\
    decimal_of (str v) v.
Proof.
  intros Hinv Hc Hin Hv Hfit. eexists. split.
  - apply (update_run_number st th (Some c) c C v q Hinv eq_refl Hc Hin); [lia | exact Hfit].
  - split; [reflexivity | apply str_positive, Hv].
Qed.

Lemma update_on_positive_witness :
  exists st',
    update first_value_sent = (st', Returned tt) /\
    countdown_text st' = str 9 /\
    decimal_of (str 9) 9.
Proof.
  apply (update_on_positive first_value_sent (Some 0%nat) 0%nat
           (mkConnection [9] 1 false) 9 []);
    [exact first_value_sent_inv | reflexivity | reflexivity | lia |].
  unfold fits. vm_compute. discriminate.
Defined.

(** C9: [clear_countdown_label] returns with the label empty and the timers
    as they were; on a label that is already empty it changes nothing at
    all, and a second call changes nothing after the first. *)
Theorem clear_countdown_label_idempotent st th gp :
  Window_inv st th gp ->
  exists st',
    clear_countdown_label st = (st', Returned tt) /\
    countdown_text st' = "" /\
    timers st' = timers st /\
    (countdown_text st = "" -> st' = st) /\
    clear_countdown_label st' = (st', Returned tt).
Proof.
  intros Hinv. exists (set_text "" st).
  split; [exact (clear_countdown_label_run st th gp Hinv) |].
  split; [reflexivity |]. split; [reflexivity |]. split.
  - intros Htxt. destruct st. cbn in *. subst. reflexivity.
  - erewrite clear_countdown_label_self; [reflexivity |].
    cbn. exact (inv_self _ _ _ Hinv).
Qed.

Lemma clear_countdown_label_idempotent_witness :
  exists st',
    clear_countdown_label started = (st', Returned tt) /\
    countdown_text st' = "" /\
    timers st' = timers started /\
    (countdown_text started = "" -> st' = started) /\
    clear_countdown_label st' = (st', Returned tt).
Proof. exact (clear_countdown_label_idempotent started None None started_inv). Defined.

End WindowMethods.


(** ** The label over a whole run of the program *)

Section SystemInvariant.
Import Worker Py Store Window System.

Lemma Window_inv_frame st st' th gp :
  Window_inv st th gp ->
  self st' = self st ->
  (forall p P, procs st !! p = Some P -> status P <> Initial ->
     exists P', procs st' !! p = Some P' /\ status P' <> Initial) ->
  length (conns st') = length (conns st) ->
  Window_inv st' th gp.
Proof.
  intros [Hself Hth Hgp] Hs Hp Hc. split.
  - rewrite Hs. exact Hself.
  - intros p Hp'. destruct (Hth p Hp') as (P & HP & Hst). eauto.
  - intros c Hc'. destruct (Hgp c Hc') as [Hsome Hth']. split; [| exact Hth'].
    apply lookup_lt_is_Some. rewrite Hc. apply lookup_lt_is_Some, Hsome.
Qed.

Lemma started_insert (ps : list Process) p' P' p P :
  status P' <> Initial ->
  ps !! p = Some P -> status P <> Initial ->
  exists Q, <[p' := P']> ps !! p = Some Q /\ status Q <> Initial.
Proof.
  intros HP' Hp HP. rewrite list_lookup_insert. case_decide; eauto.
Qed.

Lemma length_deliver c v cs : length (deliver c v cs) = length cs.
Proof. unfold deliver. destruct (cs !! c); [apply length_alter | reflexivity]. Qed.

Lemma length_deliver_all tr cs : length (deliver_all tr cs) = length cs.
Proof.
  unfold deliver_all. revert cs. induction tr as [| [c v | ms] tr IH]; intros cs; cbn.
  - reflexivity.
  - rewrite IH. apply length_deliver.
  - apply IH.
Qed.

Lemma length_hang_up c cs : length (hang_up c cs) = length cs.
Proof. unfold hang_up. destruct (cs !! c); [apply length_alter | reflexivity]. Qed.

Lemma deliver_ok c v cs : 0 <= v -> conns_ok cs -> conns_ok (deliver c v cs).
Proof.
  intros Hv Hcs. unfold deliver. destruct (cs !! c) as [C |]; [| exact Hcs].
  apply Forall_alter; [exact Hcs |]. intros C' _ HC'. cbn.
  apply Forall_app. split; [exact HC' | constructor; [exact Hv | constructor]].
Qed.

Lemma deliver_all_ok tr cs :
  Forall (Z.le 0) (sent tr) -> conns_ok cs -> conns_ok (deliver_all tr cs).
Proof.
  unfold deliver_all. revert cs. induction tr as [| [c v | ms] tr IH]; intros cs Htr Hcs; cbn.
  - exact Hcs.
  - rewrite sent_cons_send in Htr. apply Forall_cons in Htr as [Hv Htr].
    apply IH; [exact Htr | apply deliver_ok; assumption].
  - apply IH; assumption.
Qed.

Lemma hang_up_ok c cs : conns_ok cs -> conns_ok (hang_up c cs).
Proof.
  intros Hcs. unfold hang_up. destruct (cs !! c) as [C |]; [| exact Hcs].
  apply Forall_alter; [exact Hcs |]. intros C' _ HC'. exact HC'.
Qed.

(** Whatever its start value, the worker only sends non-negative values. *)
Lemma decrement_nonneg n c : Forall (Z.le 0) (sent (decrement n c)).
Proof.
  rewrite decrement_sent. apply Forall_app. split; [| constructor; [lia | constructor]].
  destruct (Z_le_gt_dec 0 n) as [Hn | Hn].
  - destruct (decrement_loop_sent c n Hn) as (_ & Hall & _).
    eapply Forall_impl; [exact Hall |]. cbn. lia.
  - rewrite decrement_loop_nonpos by lia. constructor.
Qed.

Lemma System_inv_started : System_inv started.
Proof.
  split; [exists None, None; exact started_inv |].
  split; [constructor |]. split; [constructor |]. left. reflexivity.
Qed.

Lemma System_inv_do_countdown st : System_inv st -> System_inv (do_countdown st).1.
Proof.
  intros ((th & gp & Hinv) & Hps & Hcs & Htxt).
  rewrite (do_countdown_run st th gp Hinv). cbn [fst].
  split; [| split; [| split]].
  - exists (Some (length (procs st))), (Some (length (conns st))). split.
    + reflexivity.
    + intros p [= <-]. eexists. split; [apply list_lookup_middle; reflexivity |].
      discriminate.
    + intros c [= <-]. split; [| eauto].
      eexists. apply list_lookup_middle. reflexivity.
  - apply Forall_app. split; [exact Hps |].
    constructor; [apply decrement_nonneg | constructor].
  - apply Forall_app. split; [exact Hcs |]. repeat constructor.
  - exact Htxt.
Qed.

Lemma System_inv_update st : System_inv st -> System_inv (update st).1.
Proof.
  intros ((th & gp & Hinv) & Hps & Hcs & Htxt).
  destruct gp as [c |].
  2: { rewrite (update_run_unassigned st th Hinv). repeat split; eauto. }
  destruct (inv_pipe _ _ _ Hinv c eq_refl) as [[C Hc] [p ->]].
  destruct (inv_thread _ _ _ Hinv p eq_refl) as (P & Hp & HP).
  pose proof (Forall_lookup_1 _ _ _ _ Hcs Hc) as HC. cbn in HC.
  destruct (inbox C) as [| v q] eqn:Hin.
  { destruct (peer_closed C) eqn:Hcl.
    - rewrite (update_run_eof st _ _ c C Hinv eq_refl Hc Hin Hcl). repeat split; eauto.
    - rewrite (update_run_empty st _ _ c C Hinv eq_refl Hc Hin Hcl). repeat split; eauto. }
  apply Forall_cons in HC as [Hv Hq].
  assert (conns_ok (<[c := set_inbox q C]> (conns st))) as Hcs'.
  { apply Forall_insert; [exact Hcs | exact Hq]. }
  destruct (decide (v = 0)) as [-> | Hnz].
  - rewrite (update_run_zero st _ _ c C q p P Hinv eq_refl Hc Hin eq_refl Hp HP).
    cbn [fst]. unfold joined_store.
    pose proof (Forall_lookup_1 _ _ _ _ Hps Hp) as Htodo. cbn in Htodo.
    destruct (status P) eqn:E; [contradiction | | |].
    + split; [| split; [| split]].
      * exists (Some p), (Some c). eapply Window_inv_frame; [exact Hinv | reflexivity | |].
        -- intros p' P' Hp' HP'. cbn. eapply started_insert; eauto; discriminate.
        -- cbn. rewrite length_deliver_all. apply length_insert.
      * cbn. apply Forall_insert; [exact Hps | constructor].
      * cbn. apply deliver_all_ok; assumption.
      * right. left. reflexivity.
    + split; [| split; [| split]].
      * exists (Some p), (Some c). eapply Window_inv_frame; [exact Hinv | reflexivity | |].
        -- intros p' P' Hp' HP'. cbn. eapply started_insert; eauto; cbn; congruence.
        -- cbn. apply length_insert.
      * cbn. apply Forall_insert; [exact Hps | exact Htodo].
      * exact Hcs'.
      * right. left. reflexivity.
    + split; [| split; [| split]].
      * exists (Some p), (Some c). eapply Window_inv_frame; [exact Hinv | reflexivity | |].
        -- intros p' P' Hp' HP'. cbn. eapply started_insert; eauto; cbn; congruence.
        -- cbn. apply length_insert.
      * cbn. apply Forall_insert; [exact Hps | exact Htodo].
      * exact Hcs'.
      * right. left. reflexivity.
  - assert (Window_inv (received c C q st) (Some p) (Some c)) as Hrecv.
    { eapply Window_inv_frame; [exact Hinv | reflexivity | |].
      - intros p' P' Hp' HP'. eauto.
      - cbn. apply length_insert. }
    destruct (decide (fits v)) as [Hfit | Hbig].
    + rewrite (update_run_number st _ _ c C v q Hinv eq_refl Hc Hin Hnz Hfit). cbn [fst].
      split; [| split; [| split]].
      * exists (Some p), (Some c).
        eapply Window_inv_frame; [exact Hrecv | reflexivity | eauto | reflexivity].
      * exact Hps.
      * exact Hcs'.
      * right. right. exists v. split; [lia | reflexivity].
    + rewrite (update_run_oversized st _ _ c C v q Hinv eq_refl Hc Hin Hnz Hbig). cbn [fst].
      split; [| split; [| split]].
      * exists (Some p), (Some c). exact Hrecv.
      * exact Hps.
      * exact Hcs'.
      * exact Htxt.
Qed.

Lemma System_inv_clear st : System_inv st -> System_inv (clear_countdown_label st).1.
Proof.
  intros ((th & gp & Hinv) & Hps & Hcs & Htxt).
  rewrite (clear_countdown_label_run st th gp Hinv). cbn [fst].
  split; [| split; [| split]]; [| exact Hps | exact Hcs | left; reflexivity].
  exists th, gp. eapply Window_inv_frame; [exact Hinv | reflexivity | eauto | reflexivity].
Qed.

Lemma System_inv_on_close st : System_inv st -> System_inv (on_close st).1.
Proof.
  intros ((th & gp & Hinv) & Hps & Hcs & Htxt).
  destruct th as [p |].
  - destruct (inv_thread _ _ _ Hinv p eq_refl) as (P & Hp & HP).
    pose proof (Forall_lookup_1 _ _ _ _ Hps Hp) as Htodo. cbn in Htodo.
    destruct (decide (status P = Alive)) as [Halive | Hdead].
    + rewrite (on_close_run_alive st gp p P Hinv Hp Halive). cbn [fst].
      split; [| split; [| split]]; [| | exact Hcs | exact Htxt].
      * exists (Some p), gp. eapply Window_inv_frame; [exact Hinv | reflexivity | | reflexivity].
        intros p' P' Hp' HP'. cbn. eapply started_insert; eauto; discriminate.
      * cbn. apply Forall_insert; [exact Hps | exact Htodo].
    + rewrite (on_close_run_dead st gp p P Hinv Hp Hdead). cbn [fst].
      split; [| split; [| split]]; [| exact Hps | exact Hcs | exact Htxt].
      exists (Some p), gp. eapply Window_inv_frame; [exact Hinv | reflexivity | eauto | reflexivity].
  - rewrite (on_close_run_no_worker st gp Hinv). cbn [fst].
    split; [| split; [| split]]; [| exact Hps | exact Hcs | exact Htxt].
    exists None, gp. eapply Window_inv_frame; [exact Hinv | reflexivity | eauto | reflexivity].
Qed.

Lemma System_inv_worker_step st p P :
  procs st !! p = Some P -> status P = Alive ->
  System_inv st -> System_inv (worker_step p P st).
Proof.
  intros Hp Halive ((th & gp & Hinv) & Hps & Hcs & Htxt).
  pose proof (Forall_lookup_1 _ _ _ _ Hps Hp) as Htodo. cbn in Htodo.
  unfold worker_step. destruct (todo P) as [| [c v | ms] rest] eqn:E.
  - split; [| split; [| split]]; [| | exact Hcs | exact Htxt].
    + exists th, gp. eapply Window_inv_frame; [exact Hinv | reflexivity | | reflexivity].
      intros p' P' Hp' HP'. cbn. eapply started_insert; eauto; discriminate.
    + cbn. apply Forall_insert; [exact Hps |]. cbn. rewrite E. constructor.
  - rewrite sent_cons_send in Htodo. apply Forall_cons in Htodo as [Hv Hrest].
    split; [| split; [| split]]; [| | | exact Htxt].
    + exists th, gp. eapply Window_inv_frame; [exact Hinv | reflexivity | |].
      * intros p' P' Hp' HP'. cbn. eapply started_insert; eauto; cbn; congruence.
      * cbn. apply length_deliver.
    + cbn. apply Forall_insert; [exact Hps | exact Hrest].
    + cbn. apply deliver_ok; assumption.
  - rewrite sent_cons_sleep in Htodo.
    split; [| split; [| split]]; [| | exact Hcs | exact Htxt].
    + exists th, gp. eapply Window_inv_frame; [exact Hinv | reflexivity | | reflexivity].
      intros p' P' Hp' HP'. cbn. eapply started_insert; eauto; cbn; congruence.
    + cbn. apply Forall_insert; [exact Hps | exact Htodo].
Qed.

Lemma System_inv_step st st' : step st st' -> System_inv st -> System_inv st'.
Proof.
  intros Hstep Hinv. destruct Hstep as [a st | p P st Hp Halive | p P st Hp Hdead].
  - destruct a as [| [|] |]; cbn [handler run_callback].
    + apply System_inv_do_countdown, Hinv.
    + apply System_inv_update, Hinv.
    + apply System_inv_clear, Hinv.
    + apply System_inv_on_close, Hinv.
  - apply System_inv_worker_step; assumption.
  - destruct Hinv as ((th & gp & Hw) & Hps & Hcs & Htxt).
    split; [| split; [| split]]; [| exact Hps | | exact Htxt].
    + exists th, gp. eapply Window_inv_frame; [exact Hw | reflexivity | eauto |].
      cbn. apply length_hang_up.
    + cbn. apply hang_up_ok, Hcs.
Qed.

Lemma reachable_inv st : reachable st -> System_inv st.
Proof.
  induction 1 as [| st st' _ IH Hstep].
  - exact System_inv_started.
  - exact (System_inv_step st st' Hstep IH).
Qed.

End SystemInvariant.

(** C10: in every state the program can reach, the label is empty, or
    reads "End!", or is the decimal form of a value greater than zero; it
    never reads "0". *)
Theorem label_never_zero st :
  System.reachable st ->
  Store.countdown_text st <> "0" /\ display_ok (Store.countdown_text st).
Proof.
  intros Hreach. destruct (reachable_inv st Hreach) as (_ & _ & _ & Hok).
  split; [| exact Hok].
  destruct Hok as [-> | [-> | (v & Hv & ->)]]; [discriminate | discriminate |].
  apply str_positive_not_zero, Hv.
Qed.

Lemma label_never_zero_witness :
  Store.countdown_text (Window.update first_value_sent).1 <> "0" /\
  display_ok (Store.countdown_text (Window.update first_value_sent).1).
Proof.
  apply (label_never_zero (Window.update first_value_sent).1).
  apply (System.reachable_step first_value_sent);
    [| exact (System.step_gui (System.fire Store.cb_update) first_value_sent)].
  apply (System.reachable_step running);
    [| exact (System.step_worker 0 _ running eq_refl eq_refl)].
  apply (System.reachable_step Window.started);
    [exact System.reachable_started | exact (System.step_gui System.click Window.started)].
Defined.

(** * Further properties *)

(** ** The worker's run in full *)

Section WorkerRun.
Import Worker.

Variable pipe_out : nat.

Lemma slept_app tr1 tr2 : slept (tr1 ++ tr2) = slept tr1 + slept tr2.
Proof.
  unfold slept. induction tr1 as [| [c v | ms] tr1 IH]; cbn; [reflexivity | exact IH |].
  fold (slept (tr1 ++ tr2)) in *. fold (slept tr1) in *. unfold slept in *. lia.
Qed.

Lemma decrement_loop_slept n :
  0 <= n -> slept (decrement_loop n pipe_out) = 500 * n.
Proof.
  intros Hn. pattern n. apply natlike_ind; [| | exact Hn]; clear n Hn.
  - rewrite decrement_loop_nonpos by lia. reflexivity.
  - intros n Hn IH. rewrite decrement_loop_pos by lia.
    replace (Z.succ n - 1) with n by lia.
    change (slept (Send pipe_out n :: Sleep 500 :: decrement_loop n pipe_out))
      with (500 + slept (decrement_loop n pipe_out)).
    rewrite IH. lia.
Qed.

End WorkerRun.

(** Started below or at zero, the worker skips its loop: it sends the
    single 0 at once and never sleeps. *)
Theorem decrement_nonpositive_start (pipe_out : nat) (start_num : Z) :
  start_num <= 0 ->
  Worker.decrement start_num pipe_out = [Worker.Send pipe_out 0].
Proof.
  intros Hn. unfold Worker.decrement.
  rewrite decrement_loop_nonpos by exact Hn. reflexivity.
Qed.

Lemma decrement_nonpositive_start_witness :
  -4 <= 0 /\ Worker.decrement (-4) 7 = [Worker.Send 7 0].
Proof. split; [lia | apply (decrement_nonpositive_start 7 (-4)); lia]. Defined.

(** Started at [start_num >= 0], the worker sends [start_num + 1] values:
    the one at position [k < start_num] is [start_num - 1 - k], the last
    one is the trailing 0. *)
Theorem decrement_kth_value (pipe_out : nat) (start_num : Z) (k : nat) :
  0 <= start_num ->
  length (Worker.sent (Worker.decrement start_num pipe_out)) = S (Z.to_nat start_num) /\
  (Z.of_nat k < start_num ->
   Worker.sent (Worker.decrement start_num pipe_out) !! k
   = Some (start_num - 1 - Z.of_nat k)) /\
  Worker.sent (Worker.decrement start_num pipe_out) !! Z.to_nat start_num = Some 0.
Proof.
  intros Hn. rewrite decrement_sent.
  destruct (decrement_loop_sent pipe_out start_num Hn) as (Hlen & _ & _).
  assert (length (Worker.sent (Worker.decrement_loop start_num pipe_out))
          = Z.to_nat start_num) as Hlen' by lia.
  split; [| split].
  - rewrite length_app, Hlen'. cbn. lia.
  - intros Hk. rewrite lookup_app_l by lia.
    apply decrement_loop_lookup; assumption.
  - apply list_lookup_middle. symmetry. exact Hlen'.
Qed.

Lemma decrement_kth_value_witness :
  length (Worker.sent (Worker.decrement 10 1)) = S (Z.to_nat 10) /\
  (Z.of_nat 3 < 10 -> Worker.sent (Worker.decrement 10 1) !! 3%nat = Some (10 - 1 - Z.of_nat 3)) /\
  Worker.sent (Worker.decrement 10 1) !! Z.to_nat 10 = Some 0.
Proof. apply (decrement_kth_value 1 10 3). lia. Defined.

(** The worker sleeps 500 ms once per turn of its loop, so
    [500 * start_num] ms in all and not at all for a start below zero; its
    first send comes before any sleep and its run ends with the send of
    the trailing 0, with no sleep after it. *)
Theorem decrement_time_asleep (pipe_out : nat) (start_num : Z) :
  slept (Worker.decrement start_num pipe_out) = 500 * Z.max 0 start_num /\
  last (Worker.decrement start_num pipe_out) = Some (Worker.Send pipe_out 0) /\
  head (Worker.decrement start_num pipe_out)
  = Some (Worker.Send pipe_out (Z.max 0 (start_num - 1))).
Proof.
  unfold Worker.decrement. split; [| split].
  - rewrite slept_app. destruct (Z_le_gt_dec 0 start_num) as [Hn | Hn].
    + rewrite decrement_loop_slept by exact Hn. cbn. lia.
    + rewrite decrement_loop_nonpos by lia. cbn. lia.
  - apply last_snoc.
  - destruct (Z_le_gt_dec start_num 0) as [Hn | Hn].
    + rewrite decrement_loop_nonpos by exact Hn. cbn. do 2 f_equal. lia.
    + rewrite decrement_loop_pos by lia. cbn. do 2 f_equal. lia.
Qed.

(** ** Labels and the values behind them *)

Section Labels.
Import Py.

Lemma is_digit_not_minus a : is_digit a = true -> Ascii.eqb a "-" = false.
Proof.
  intros Hd. destruct (Ascii.eqb_spec a "-") as [-> | _]; [| reflexivity].
  discriminate Hd.
Qed.

Lemma int_of_str_str v : int_of_str (str v) = v.
Proof.
  unfold str. destruct (Z.ltb_spec v 0) as [Hneg | Hpos].
  - cbn [int_of_str]. change (Ascii.eqb "-" "-") with true. cbv iota.
    rewrite list_ascii_of_string_of_list_ascii.
    destruct (digits_spec (- v)) as (_ & _ & Hval & _); [lia |]. lia.
  - destruct (digits_spec v Hpos) as (Hne & Hall & Hval & _).
    destruct (digits v) as [| a l] eqn:E; [contradiction |].
    cbn [string_of_list_ascii int_of_str].
    apply Forall_cons in Hall as [Ha _]. rewrite (is_digit_not_minus a Ha).
    change (String a (string_of_list_ascii l)) with (string_of_list_ascii (a :: l)).
    rewrite list_ascii_of_string_of_list_ascii. exact Hval.
Qed.

End Labels.

(** The label written for a value tells the value: two integers with the
    same [str] are the same, whatever their signs. *)
Theorem str_injective (v w : Z) : Py.str v = Py.str w -> v = w.
Proof.
  intros Heq. rewrite <- (int_of_str_str v), <- (int_of_str_str w), Heq. reflexivity.
Qed.

Lemma str_injective_witness : Py.str 10 = Py.str 10 /\ 10 = 10.
Proof. split; [reflexivity | apply (str_injective 10 10); reflexivity]. Defined.

(** ** The poll, case by case *)

Section PollCases.
Import Worker Py Store Window.

Lemma negative_sent_inv : Window_inv negative_sent (Some 0%nat) (Some 0%nat).
Proof.
  split.
  - reflexivity.
  - intros p [= <-]. eexists. split; [reflexivity | discriminate].
  - intros c [= <-]. split; eexists; reflexivity.
Qed.

Lemma loop_values_sent_inv : Window_inv loop_values_sent (Some 0%nat) (Some 0%nat).
Proof.
  split.
  - reflexivity.
  - intros p [= <-]. eexists. split; [reflexivity | discriminate].
  - intros c [= <-]. split; eexists; reflexivity.
Qed.

Lemma closed_channel_inv : Window_inv closed_channel (Some 0%nat) (Some 0%nat).
Proof.
  split.
  - reflexivity.
  - intros p [= <-]. eexists. split; [reflexivity | discriminate].
  - intros c [= <-]. split; eexists; reflexivity.
Qed.

(** As long as the button was never pressed there is no [gui_pipe]
    attribute ([__init__] assigns [countdown_thread] but not the channel
    end): a poll raises [AttributeError] and changes nothing. *)
Theorem update_before_first_countdown st th :
  Window_inv st th None ->
  update st = (st, Raised (AttributeError "gui_pipe")).
Proof. intros Hinv. exact (update_run_unassigned st th Hinv). Qed.

Lemma update_before_first_countdown_witness :
  update started = (started, Raised (AttributeError "gui_pipe")).
Proof. exact (update_before_first_countdown started None started_inv). Defined.

(** A poll on an empty channel whose other end is closed finds the channel
    readable, and the receive raises [EOFError]; the store is as it was:
    nothing is joined, shown or scheduled. *)
Theorem update_on_closed_channel st th c C :
  Window_inv st th (Some c) -> conns st !! c = Some C ->
  inbox C = [] -> peer_closed C = true ->
  update st = (st, Raised EOFError).
Proof.
  intros Hinv Hc Hin Hcl.
  exact (update_run_eof st th (Some c) c C Hinv eq_refl Hc Hin Hcl).
Qed.

Lemma update_on_closed_channel_witness :
  update closed_channel = (closed_channel, Raised EOFError).
Proof.
  apply (update_on_closed_channel closed_channel (Some 0%nat) 0%nat
           (mkConnection [] 1 true));
    [exact closed_channel_inv | reflexivity | reflexivity | reflexivity].
Defined.

(** A poll that receives a value other than 0, of a size Python converts
    to text, takes exactly that one value
    off the channel and leaves the values behind it in place, shows it,
    asks for one more poll in 100 ms, and touches neither the processes
    nor the attributes of the window. *)
Theorem update_on_nonzero st th c C v q :
  Window_inv st th (Some c) -> conns st !! c = Some C -> inbox C = v :: q ->
  v <> 0 -> fits v ->
  exists st',
    update st = (st', Returned tt) /\
    countdown_text st' = str v /\
    conns st' = <[c := set_inbox q C]> (conns st) /\
    conns st' !! c = Some (mkConnection q (peer C) (peer_closed C)) /\
    timers st' = timers st ++ [(100, cb_update)] /\
    procs st' = procs st /\ self st' = self st /\ destroyed st' = destroyed st.
Proof.
  intros Hinv Hc Hin Hv Hfit. eexists. split.
  - exact (update_run_number st th (Some c) c C v q Hinv eq_refl Hc Hin Hv Hfit).
  - repeat split. cbn. apply list_lookup_insert_eq. eapply lookup_lt_Some, Hc.
Qed.

Lemma update_on_nonzero_witness :
  exists st',
    update loop_values_sent = (st', Returned tt) /\
    countdown_text st' = str 2 /\
    conns st' = <[0%nat := set_inbox [1; 0] (mkConnection [2; 1; 0] 1 false)]>
                  (conns loop_values_sent) /\
    conns st' !! 0%nat = Some (mkConnection [1; 0] 1 false) /\
    timers st' = timers loop_values_sent ++ [(100, cb_update)] /\
    procs st' = procs loop_values_sent /\ self st' = self loop_values_sent /\
    destroyed st' = destroyed loop_values_sent.
Proof.
  apply (update_on_nonzero loop_values_sent (Some 0%nat) 0%nat
           (mkConnection [2; 1; 0] 1 false) 2 [1; 0]);
    [exact loop_values_sent_inv | reflexivity | reflexivity | lia |].
  apply fits_digit. lia.
Defined.

(** The branch for "a number that is positive" is taken by every value
    other than 0: a negative value of a size Python converts to text is
    shown too, as a minus sign followed
    by the numeral of its absolute value, and polling goes on. *)
Theorem update_on_negative st th c C v q :
  Window_inv st th (Some c) -> conns st !! c = Some C -> inbox C = v :: q ->
  v < 0 -> fits v ->
  exists st',
    update st = (st', Returned tt) /\
    countdown_text st' = String "-" (str (- v)) /\
    decimal_of (str (- v)) (- v) /\
    timers st' = timers st ++ [(100, cb_update)].
Proof.
  intros Hinv Hc Hin Hv Hfit. eexists. split.
  - apply (update_run_number st th (Some c) c C v q Hinv eq_refl Hc Hin);
      [lia | exact Hfit].
  - split; [| split; [apply str_positive; lia | reflexivity]].
    cbn. unfold str.
    destruct (Z.ltb_spec v 0) as [_ | ?]; [| lia].
    destruct (Z.ltb_spec (- v) 0) as [? | _]; [lia | reflexivity].
Qed.

Lemma update_on_negative_witness :
  exists st',
    update negative_sent = (st', Returned tt) /\
    countdown_text st' = String "-" (str (- -12)) /\
    decimal_of (str (- -12)) (- -12) /\
    timers st' = timers negative_sent ++ [(100, cb_update)].
Proof.
  apply (update_on_negative negative_sent (Some 0%nat) 0%nat
           (mkConnection [-12] 1 false) (-12) []);
    [exact negative_sent_inv | reflexivity | reflexivity | lia |].
  unfold fits. vm_compute. discriminate.
Defined.

End PollCases.

(** ** Polls in a row, and the poll after a forced shutdown *)

Section PollSequences.
Import Worker Py Store Window System.

Lemma Window_inv_received st th gp c C q :
  Window_inv st th gp -> conns st !! c = Some C ->
  Window_inv (scheduled 100 cb_update (set_text (str 0) (received c C q st))) th gp /\
  forall ms cb s, Window_inv (scheduled ms cb (set_text s (received c C q st))) th gp.
Proof.
  intros Hinv Hc.
  assert (forall ms cb s,
            Window_inv (scheduled ms cb (set_text s (received c C q st))) th gp) as H.
  { intros ms cb s. eapply Window_inv_frame; [exact Hinv | reflexivity | eauto |].
    cbn. apply length_insert. }
  split; [apply H | exact H].
Qed.

Lemma polls_drain_aux l :
  forall st th c C q,
    Window_inv st th (Some c) -> conns st !! c = Some C ->
    inbox C = l ++ 0 :: q -> Forall (fun v => v <> 0) l -> Forall fits l ->
    Window_inv (polls (length l) st) th (Some c) /\
    conns (polls (length l) st) !! c = Some (set_inbox (0 :: q) C) /\
    timers (polls (length l) st) = timers st ++ replicate (length l) (100, cb_update) /\
    countdown_text (polls (length l) st) = from_option str (countdown_text st) (last l) /\
    procs (polls (length l) st) = procs st.
Proof.
  induction l as [| v l IH]; intros st th c C q Hinv Hc Hin Hnz Hfits.
  - cbn [length polls replicate]. rewrite app_nil_r. cbn in Hin.
    split; [exact Hinv |]. split; [| repeat split].
    rewrite Hc. f_equal. destruct C as [i pr cl]. cbn in *. subst i. reflexivity.
  - apply Forall_cons in Hnz as [Hv Hnz]. apply Forall_cons in Hfits as [Hfit Hfits].
    cbn [length polls].
    rewrite (update_run_number st th (Some c) c C v (l ++ 0 :: q) Hinv eq_refl Hc Hin Hv Hfit).
    cbn [fst].
    set (st1 := scheduled 100 cb_update
                  (set_text (str v) (received c C (l ++ 0 :: q) st))).
    assert (Window_inv st1 th (Some c)) as Hinv1.
    { apply (Window_inv_received st th (Some c) c C (l ++ 0 :: q) Hinv Hc). }
    assert (conns st1 !! c = Some (set_inbox (l ++ 0 :: q) C)) as Hc1.
    { cbn. apply list_lookup_insert_eq. eapply lookup_lt_Some, Hc. }
    destruct (IH st1 th c (set_inbox (l ++ 0 :: q) C) q Hinv1 Hc1 eq_refl Hnz Hfits)
      as (Hi & Hcs & Htm & Htxt & Hps).
    split; [exact Hi |]. split; [exact Hcs |]. split; [| split].
    + rewrite Htm. cbn. rewrite <- app_assoc. reflexivity.
    + rewrite Htxt. cbn [countdown_text st1 scheduled set_timers set_text].
      rewrite last_cons. destruct (last l); reflexivity.
    + rewrite Hps. reflexivity.
Qed.

Lemma polls_snoc k st : polls (S k) st = (update (polls k st)).1.
Proof. revert st. induction k as [| k IH]; intros st; [reflexivity |]. exact (IH _). Qed.

End PollSequences.

(** Polls drain the channel one value per tick, in order, up to the first
    0: with non-zero values [l], each of a size Python converts to text,
    ahead of a 0, [length l] polls show the
    last of [l], ask for one poll each and leave the 0 at the head; the
    next poll shows "End!", asks for the clearing of the label and for no
    further poll, so whatever follows the 0 in the channel is never read. *)
Theorem polls_drain_to_first_zero st th c C l q :
  Window_inv st th (Some c) -> Store.conns st !! c = Some C ->
  Store.inbox C = l ++ 0 :: q -> Forall (fun v => v <> 0) l ->
  Forall Py.fits l ->
  Store.conns (polls (length l) st) !! c = Some (Store.set_inbox (0 :: q) C) /\
  Store.countdown_text (polls (length l) st)
  = from_option Py.str (Store.countdown_text st) (last l) /\
  Store.timers (polls (length l) st)
  = Store.timers st ++ replicate (length l) (100, Store.cb_update) /\
  Store.procs (polls (length l) st) = Store.procs st /\
  Store.countdown_text (polls (S (length l)) st) = "End!" /\
  Store.timers (polls (S (length l)) st)
  = Store.timers st ++ replicate (length l) (100, Store.cb_update)
      ++ [(1000, Store.cb_clear_countdown_label)].
Proof.
  intros Hinv Hc Hin Hnz Hfits.
  destruct (polls_drain_aux l st th c C q Hinv Hc Hin Hnz Hfits)
    as (Hi & Hcs & Htm & Htxt & Hps).
  split; [exact Hcs |]. split; [exact Htxt |]. split; [exact Htm |]. split; [exact Hps |].
  rewrite polls_snoc.
  destruct (inv_pipe _ _ _ Hi c eq_refl) as [_ [p ->]].
  destruct (inv_thread _ _ _ Hi p eq_refl) as (P & Hp & HP).
  rewrite (update_run_zero (polls (length l) st) _ _ c
             (Store.set_inbox (0 :: q) C) q p P Hi eq_refl Hcs eq_refl eq_refl Hp HP).
  cbn [fst]. split; [reflexivity |].
  cbn. unfold joined_store.
  destruct (Store.status P); cbn; rewrite Htm, <- app_assoc; reflexivity.
Qed.

Lemma polls_drain_to_first_zero_witness :
  Store.conns (polls 2 loop_values_sent) !! 0%nat
  = Some (Store.set_inbox [0] (Store.mkConnection [2; 1; 0] 1 false)) /\
  Store.countdown_text (polls 2 loop_values_sent)
  = from_option Py.str (Store.countdown_text loop_values_sent) (last [2; 1]) /\
  Store.timers (polls 2 loop_values_sent)
  = Store.timers loop_values_sent ++ replicate 2 (100, Store.cb_update) /\
  Store.procs (polls 2 loop_values_sent) = Store.procs loop_values_sent /\
  Store.countdown_text (polls 3 loop_values_sent) = "End!" /\
  Store.timers (polls 3 loop_values_sent)
  = Store.timers loop_values_sent ++ replicate 2 (100, Store.cb_update)
      ++ [(1000, Store.cb_clear_countdown_label)].
Proof.
  apply (polls_drain_to_first_zero loop_values_sent (Some 0%nat) 0%nat
           (Store.mkConnection [2; 1; 0] 1 false) [2; 1] []);
    [exact loop_values_sent_inv | reflexivity | reflexivity | |].
  - repeat constructor; lia.
  - repeat constructor; apply fits_digit; lia.
Defined.

(** What the note in [on_close] warns of: a window closed while its worker
    is alive kills the worker; once the worker's end of the channel is
    gone and nothing waits in the channel, a poll raises [EOFError] and
    changes nothing. *)
Theorem poll_after_forced_shutdown st p c P C C' :
  Window_inv st (Some p) (Some c) ->
  Store.procs st !! p = Some P -> Store.status P = Store.Alive ->
  Store.conns st !! Store.pipe_out P = Some C' -> Store.peer C' = c ->
  Store.conns st !! c = Some C -> Store.inbox C = [] ->
  let st1 := (Window.on_close st).1 in
  let st2 := Store.set_conns (System.hang_up (Store.pipe_out P)) st1 in
  System.step st st1 /\ System.step st1 st2 /\
  Store.procs st1 !! p = Some (Store.set_status Store.Killed P) /\
  Window.update st2 = (st2, Py.Raised Py.EOFError).
Proof.
  intros Hinv Hp Halive Hout Hpeer Hc Hin st1 st2.
  assert (st1 = Store.set_destroyed true
                  (Store.set_procs (fun l => <[p := Store.set_status Store.Killed P]> l) st))
    as Hst1.
  { unfold st1. rewrite (on_close_run_alive st (Some c) p P Hinv Hp Halive). reflexivity. }
  assert (Store.procs st1 !! p = Some (Store.set_status Store.Killed P)) as Hp1.
  { rewrite Hst1. cbn. apply list_lookup_insert_eq. eapply lookup_lt_Some, Hp. }
  split; [exact (System.step_gui System.close st) |].
  split.
  { exact (System.step_hang_up p (Store.set_status Store.Killed P) st1 Hp1
             (or_intror eq_refl)). }
  split; [exact Hp1 |].
  assert (Window_inv st2 (Some p) (Some c)) as Hinv2.
  { eapply Window_inv_frame; [exact Hinv | | |].
    - unfold st2. rewrite Hst1. reflexivity.
    - intros p' P' Hp' HP'. unfold st2. rewrite Hst1. cbn.
      eapply started_insert; eauto; discriminate.
    - unfold st2. rewrite Hst1. cbn. apply length_hang_up. }
  assert (Store.conns st2 !! c = Some (Store.close_peer C)) as Hc2.
  { unfold st2. rewrite Hst1. cbn. unfold System.hang_up. rewrite Hout, Hpeer.
    rewrite list_lookup_alter_eq, Hc. reflexivity. }
  exact (update_run_eof st2 _ _ c (Store.close_peer C) Hinv2 eq_refl Hc2 Hin eq_refl).
Qed.

Lemma poll_after_forced_shutdown_witness :
  let st1 := (Window.on_close running).1 in
  let st2 := Store.set_conns (System.hang_up 1) st1 in
  System.step running st1 /\ System.step st1 st2 /\
  Store.procs st1 !! 0%nat
  = Some (Store.set_status Store.Killed
            (Store.mkProcess 10 1 (Worker.decrement 10 1) Store.Alive false)) /\
  Window.update st2 = (st2, Py.Raised Py.EOFError).
Proof.
  apply (poll_after_forced_shutdown running 0%nat 0%nat
           (Store.mkProcess 10 1 (Worker.decrement 10 1) Store.Alive false)
           (Store.mkConnection [] 1 false) (Store.mkConnection [] 0 false));
    [exact running_inv | reflexivity..].
Defined.

(** ** What a handler can do to the window *)

Section Handlers.
Import Worker Py Store Window System.

Lemma handler_handled a st th gp :
  Window_inv st th gp -> handled st th gp (handler a st).1.
Proof.
  intros Hinv. destruct a as [| [|] |]; cbn [handler run_callback].
  - rewrite (do_countdown_run st th gp Hinv). constructor.
  - destruct gp as [c |].
    2: { rewrite (update_run_unassigned st th Hinv). constructor. }
    destruct (inv_pipe _ _ _ Hinv c eq_refl) as [[C Hc] [p ->]].
    destruct (inv_thread _ _ _ Hinv p eq_refl) as (P & Hp & HP).
    destruct (inbox C) as [| v q] eqn:Hin.
    { destruct (peer_closed C) eqn:Hcl.
      - rewrite (update_run_eof st _ _ c C Hinv eq_refl Hc Hin Hcl). constructor.
      - rewrite (update_run_empty st _ _ c C Hinv eq_refl Hc Hin Hcl). constructor. }
    destruct (decide (v = 0)) as [-> | Hnz].
    + rewrite (update_run_zero st _ _ c C q p P Hinv eq_refl Hc Hin eq_refl Hp HP).
      eapply handled_zero; eauto.
    + destruct (decide (fits v)) as [Hfit | Hbig].
      * rewrite (update_run_number st _ _ c C v q Hinv eq_refl Hc Hin Hnz Hfit).
        eapply handled_number; eauto.
      * rewrite (update_run_oversized st _ _ c C v q Hinv eq_refl Hc Hin Hnz Hbig).
        eapply handled_oversized; eauto.
  - rewrite (clear_countdown_label_run st th gp Hinv). constructor.
  - destruct th as [p |].
    + destruct (inv_thread _ _ _ Hinv p eq_refl) as (P & Hp & HP).
      destruct (decide (status P = Alive)) as [Halive | Hdead].
      * rewrite (on_close_run_alive st gp p P Hinv Hp Halive).
        eapply handled_kill; eauto.
      * rewrite (on_close_run_dead st gp p P Hinv Hp Hdead). constructor.
    + rewrite (on_close_run_no_worker st gp Hinv). constructor.
Qed.

Lemma restarted_inv st th gp :
  Window_inv st th gp ->
  Window_inv (restarted st) (Some (length (procs st))) (Some (length (conns st))).
Proof.
  intros _. split.
  - reflexivity.
  - intros p [= <-]. eexists. split; [apply list_lookup_middle; reflexivity |].
    discriminate.
  - intros c [= <-]. split; [| eauto].
    eexists. apply list_lookup_middle. reflexivity.
Qed.

Lemma joined_store_procs p P st :
  exists P', procs (joined_store p P st) = <[p := P']> (procs st) /\
             start_num P' = start_num P /\ pipe_out P' = pipe_out P /\
             joined P' = true /\
             (status P <> Initial -> status P' <> Initial) /\
             (status P' = Killed -> status P = Killed).
Proof.
  unfold joined_store. destruct (status P) eqn:E; eexists; (split; [reflexivity |]);
    cbn; rewrite ?E; repeat split; congruence.
Qed.

Lemma joined_store_frame p P st :
  self (joined_store p P st) = self st /\
  countdown_text (joined_store p P st) = countdown_text st /\
  timers (joined_store p P st) = timers st /\
  destroyed (joined_store p P st) = destroyed st /\
  length (conns (joined_store p P st)) = length (conns st).
Proof.
  unfold joined_store. destruct (status P); cbn; repeat split.
  apply length_deliver_all.
Qed.

Lemma handled_inv st th gp st' :
  Window_inv st th gp -> handled st th gp st' ->
  exists th' gp', Window_inv st' th' gp'.
Proof.
  intros Hinv H. destruct H.
  - eauto.
  - eexists _, _. exact (restarted_inv st th gp Hinv).
  - exists th, gp. eapply Window_inv_frame; [exact Hinv | reflexivity | eauto |].
    cbn. apply length_insert.
  - exists th, gp. eapply Window_inv_frame; [exact Hinv | reflexivity | eauto |].
    cbn. apply length_insert.
  - exists th, gp.
    destruct (joined_store_frame p P (received c C q st)) as (Hs & _ & _ & _ & Hl).
    destruct (joined_store_procs p P (received c C q st)) as (P' & Hps & _ & _ & _ & Hst & _).
    eapply Window_inv_frame; [exact Hinv | exact Hs | |].
    + intros p' P0 Hp' HP0. cbn [procs scheduled set_timers set_text]. rewrite Hps.
      eapply started_insert; eauto.
    + cbn [conns scheduled set_timers set_text]. rewrite Hl. cbn. apply length_insert.
  - exists th, gp. eapply Window_inv_frame; [exact Hinv | reflexivity | eauto | reflexivity].
  - exists th, gp. eapply Window_inv_frame; [exact Hinv | reflexivity | | reflexivity].
    intros p' P' Hp' HP'. cbn. eapply started_insert; eauto; discriminate.
  - exists th, gp. eapply Window_inv_frame; [exact Hinv | reflexivity | eauto | reflexivity].
Qed.

End Handlers.

(** Every handler, whether it returns or raises, leaves the window well
    formed: the attributes of [__init__] are all still there, the worker
    slot holds [None] or a started process, [gui_pipe] is unassigned or an
    existing channel end, and [parent] is still unassigned. *)
Theorem handler_keeps_window (a : System.action) st th gp :
  Window_inv st th gp ->
  exists th' gp', Window_inv (System.handler a st).1 th' gp'.
Proof.
  intros Hinv. eapply handled_inv; [exact Hinv | apply handler_handled, Hinv].
Qed.

Lemma handler_keeps_window_witness :
  exists th' gp', Window_inv (System.handler System.click running).1 th' gp'.
Proof.
  exact (handler_keeps_window System.click running (Some 0%nat) (Some 0%nat) running_inv).
Defined.

(** ** What every reachable state of the program satisfies *)

Section ProgramInvariant.
Import Worker Py Store Window System.

Lemma proc_good_mono tm tm' d d' p P :
  proc_good tm d p P ->
  (forall t, t ∈ tm -> t ∈ tm') -> (d = true -> d' = true) ->
  proc_good tm' d' p P.
Proof.
  intros (Hs & Hi & Ho & Hk & Hj) Htm Hd. repeat split; auto.
Qed.

Lemma Program_inv_frame st st' th gp :
  Program_inv st -> Window_inv st th gp ->
  (forall p, th = Some p -> S p = length (procs st)) ->
  (forall c, gp = Some c -> S (S c) = length (conns st)) ->
  self st' = self st ->
  length (conns st') = length (conns st) ->
  length (procs st') = length (procs st) ->
  (forall p P', procs st' !! p = Some P' ->
     procs st !! p = Some P' \/ proc_good (timers st') (destroyed st') p P') ->
  (exists l, timers st' = timers st ++ l /\ Forall timer_known l) ->
  (destroyed st = true -> destroyed st' = true) ->
  Program_inv st'.
Proof.
  intros [_ Hpipes Hprocs Htimers] Hinv Hth Hgp Hs Hlc Hlp Hps (l & Htm & Hl) Hd.
  assert (forall p P', procs st' !! p = Some P' ->
            proc_good (timers st') (destroyed st') p P') as Hgood.
  { intros p P' Hp'. destruct (Hps p P' Hp') as [Hold | Hnew]; [| exact Hnew].
    eapply proc_good_mono; [exact (Hprocs p P' Hold) | | exact Hd].
    intros t Ht. rewrite Htm. apply elem_of_app. left. exact Ht. }
  split.
  - exists th, gp. split; [| split].
    + eapply Window_inv_frame; [exact Hinv | exact Hs | | exact Hlc].
      intros p P Hp HP.
      assert (is_Some (procs st' !! p)) as [P' HP'].
      { apply lookup_lt_is_Some. rewrite Hlp. eapply lookup_lt_Some, Hp. }
      exists P'. split; [exact HP' |]. destruct (Hgood p P' HP') as (_ & Hi & _). exact Hi.
    + intros p Hp. rewrite Hlp. exact (Hth p Hp).
    + intros c Hc. rewrite Hlc. exact (Hgp c Hc).
  - rewrite Hlc, Hlp. exact Hpipes.
  - exact Hgood.
  - rewrite Htm. apply Forall_app. split; assumption.
Qed.

Lemma insert_old_or_new (ps : list Process) p0 P0 p P' :
  <[p0 := P0]> ps !! p = Some P' ->
  ps !! p = Some P' \/ (p = p0 /\ P' = P0).
Proof.
  intros H. apply list_lookup_insert_Some in H as [(-> & -> & _) | [_ H]]; auto.
Qed.

Lemma Program_inv_started : Program_inv started.
Proof.
  split.
  - exists None, None. split; [exact started_inv |]. split; discriminate.
  - reflexivity.
  - intros p P Hp. destruct p; discriminate Hp.
  - constructor.
Qed.

Lemma Program_inv_restarted st : Program_inv st -> Program_inv (restarted st).
Proof.
  intros [(th & gp & Hinv & Hth & Hgp) Hpipes Hprocs Htimers]. split.
  - eexists _, _. split; [exact (restarted_inv st th gp Hinv) |]. split.
    + intros p [= <-]. cbn. rewrite length_app. cbn. lia.
    + intros c [= <-]. cbn. rewrite length_app. cbn. lia.
  - cbn. rewrite !length_app. cbn. lia.
  - intros p P Hp. cbn in Hp. apply lookup_snoc_Some in Hp as [[_ Hp] | [-> <-]].
    + exact (Hprocs p P Hp).
    + repeat split; cbn; try discriminate. rewrite Hpipes. reflexivity.
  - exact Htimers.
Qed.

Lemma Program_inv_handled st th gp st' :
  Program_inv st -> Window_inv st th gp ->
  (forall p, th = Some p -> S p = length (procs st)) ->
  (forall c, gp = Some c -> S (S c) = length (conns st)) ->
  handled st th gp st' -> Program_inv st'.
Proof.
  intros Hprog Hinv Hth Hgp H. destruct H as
    [ | | c C v q Hgp' Hc Hin Hv | c C v q Hgp' Hc Hin Hv
      | c C q p P Hgp' Hc Hin Hth' Hp HP | | p P Hth' Hp HP | ].
  - exact Hprog.
  - apply Program_inv_restarted, Hprog.
  - apply (Program_inv_frame st _ th gp Hprog Hinv Hth Hgp).
    + reflexivity.
    + cbn. apply length_insert.
    + reflexivity.
    + intros p P' Hp'. left. exact Hp'.
    + exists [(100, cb_update)]. split; [reflexivity |].
      constructor; [left; reflexivity | constructor].
    + intros Hd. exact Hd.
  - apply (Program_inv_frame st _ th gp Hprog Hinv Hth Hgp).
    + reflexivity.
    + cbn. apply length_insert.
    + reflexivity.
    + intros p P' Hp'. left. exact Hp'.
    + exists []. split; [cbn; rewrite app_nil_r; reflexivity | constructor].
    + intros Hd. exact Hd.
  - destruct (joined_store_frame p P (received c C q st)) as (Hs & _ & Htm & Hd & Hl).
    destruct (joined_store_procs p P (received c C q st))
      as (P' & Hps & Hsn & Hpo & Hj & Hst & Hk).
    pose proof (prog_procs st Hprog p P Hp) as (Gs & Gi & Go & Gk & Gj).
    apply (Program_inv_frame st _ th gp Hprog Hinv Hth Hgp).
    + exact Hs.
    + cbn [conns scheduled set_timers set_text]. rewrite Hl. cbn. apply length_insert.
    + cbn [procs scheduled set_timers set_text]. rewrite Hps. cbn. apply length_insert.
    + intros p' P0 Hp'. cbn [procs scheduled set_timers set_text] in Hp'.
      rewrite Hps in Hp'. cbn in Hp'.
      apply insert_old_or_new in Hp' as [Hold | [-> ->]]; [left; exact Hold | right].
      split; [congruence |]. split; [auto |]. split; [congruence |]. split.
      * intros HK. cbn [destroyed scheduled set_timers set_text]. rewrite Hd. cbn. auto.
      * intros _. cbn [timers scheduled set_timers set_text]. apply elem_of_app. right.
        apply list_elem_of_singleton. reflexivity.
    + exists [(1000, cb_clear_countdown_label)]. split.
      * cbn [timers scheduled set_timers set_text]. rewrite Htm. reflexivity.
      * constructor; [right; reflexivity | constructor].
    + cbn [destroyed scheduled set_timers set_text]. rewrite Hd. cbn. auto.
  - apply (Program_inv_frame st _ th gp Hprog Hinv Hth Hgp).
    + reflexivity.
    + reflexivity.
    + reflexivity.
    + intros p P' Hp'. left. exact Hp'.
    + exists []. split; [cbn; rewrite app_nil_r; reflexivity | constructor].
    + intros Hd. exact Hd.
  - pose proof (prog_procs st Hprog p P Hp) as (Gs & Gi & Go & Gk & Gj).
    apply (Program_inv_frame st _ th gp Hprog Hinv Hth Hgp).
    + reflexivity.
    + reflexivity.
    + cbn. apply length_insert.
    + intros p' P0 Hp'. cbn in Hp'.
      apply insert_old_or_new in Hp' as [Hold | [-> ->]]; [left; exact Hold | right].
      split; [exact Gs |]. split; [discriminate |]. split; [exact Go |].
      split; [reflexivity | exact Gj].
    + exists []. split; [cbn; rewrite app_nil_r; reflexivity | constructor].
    + reflexivity.
  - apply (Program_inv_frame st _ th gp Hprog Hinv Hth Hgp).
    + reflexivity.
    + reflexivity.
    + reflexivity.
    + intros p P' Hp'. left. exact Hp'.
    + exists []. split; [cbn; rewrite app_nil_r; reflexivity | constructor].
    + reflexivity.
Qed.

Lemma Program_inv_worker_step st p P :
  procs st !! p = Some P -> status P = Alive ->
  Program_inv st -> Program_inv (worker_step p P st).
Proof.
  intros Hp Halive Hprog.
  pose proof (prog_procs st Hprog p P Hp) as (Gs & Gi & Go & Gk & Gj).
  destruct (prog_window st Hprog) as (th & gp & Hinv & Hth & Hgp).
  assert (forall P0 : Process,
            start_num P0 = start_num P -> pipe_out P0 = pipe_out P ->
            joined P0 = joined P -> status P0 = Alive \/ status P0 = Exited ->
            forall cs, length cs = length (conns st) ->
            Program_inv (mkState (self st) (countdown_text st) cs
                           (<[p := P0]> (procs st)) (timers st) (destroyed st))) as Hstep.
  { intros P0 Hs0 Ho0 Hj0 Hst0 cs Hcs.
    apply (Program_inv_frame st _ th gp Hprog Hinv Hth Hgp).
    - reflexivity.
    - exact Hcs.
    - cbn. apply length_insert.
    - intros p' P1 Hp'. cbn in Hp'.
      apply insert_old_or_new in Hp' as [Hold | [-> ->]]; [left; exact Hold | right].
      split; [congruence |]. split; [destruct Hst0; congruence |].
      split; [congruence |]. split; [destruct Hst0; congruence |].
      cbn. rewrite Hj0. exact Gj.
    - exists []. split; [cbn; rewrite app_nil_r; reflexivity | constructor].
    - intros Hd. exact Hd. }
  unfold worker_step. destruct (todo P) as [| [c v | ms] rest] eqn:E.
  - apply (Hstep (set_status Exited P)); auto.
  - apply (Hstep (set_todo rest P)); auto. apply length_deliver.
  - apply (Hstep (set_todo rest P)); auto.
Qed.

Lemma Program_inv_hang_up st c :
  Program_inv st -> Program_inv (set_conns (hang_up c) st).
Proof.
  intros Hprog. destruct (prog_window st Hprog) as (th & gp & Hinv & Hth & Hgp).
  apply (Program_inv_frame st _ th gp Hprog Hinv Hth Hgp).
  - reflexivity.
  - cbn. apply length_hang_up.
  - reflexivity.
  - intros p P' Hp'. left. exact Hp'.
  - exists []. split; [cbn; rewrite app_nil_r; reflexivity | constructor].
  - intros Hd. exact Hd.
Qed.

Lemma Program_inv_step st st' : step st st' -> Program_inv st -> Program_inv st'.
Proof.
  intros Hstep Hprog. destruct Hstep as [a st | p P st Hp Halive | p P st Hp Hdead].
  - destruct (prog_window st Hprog) as (th & gp & Hinv & Hth & Hgp).
    eapply Program_inv_handled; eauto. apply handler_handled, Hinv.
  - apply Program_inv_worker_step; assumption.
  - apply Program_inv_hang_up, Hprog.
Qed.

Lemma reachable_Program_inv st : reachable st -> Program_inv st.
Proof.
  induction 1 as [| st st' _ IH Hstep].
  - exact Program_inv_started.
  - exact (Program_inv_step st st' Hstep IH).
Qed.

Lemma reachable_polls k st : reachable st -> reachable (polls k st).
Proof.
  revert st. induction k as [| k IH]; intros st Hst; [exact Hst |].
  cbn [polls]. apply IH.
  exact (reachable_step st _ Hst (step_gui (fire cb_update) st)).
Qed.

Lemma reachable_works k p st : reachable st -> reachable (works k p st).
Proof.
  revert st. induction k as [| k IH]; intros st Hst; [exact Hst |].
  cbn [works]. destruct (procs st !! p) as [P |] eqn:Hp; [| exact Hst].
  case_bool_decide as Halive; [| exact Hst].
  apply IH. exact (reachable_step st _ Hst (step_worker p P st Hp Halive)).
Qed.

Lemma running_reachable : reachable running.
Proof. exact (reachable_step started _ reachable_started (step_gui click started)). Qed.

End ProgramInvariant.

(** In every state the program can reach, each press of the button has
    made exactly one channel (two ends) and one worker; every worker was
    started, counts down from 10, and sends on the second end of its own
    channel. *)
Theorem workers_started_from_ten st :
  System.reachable st ->
  length (Store.conns st) = (2 * length (Store.procs st))%nat /\
  forall p P, Store.procs st !! p = Some P ->
    Store.start_num P = 10 /\ Store.status P <> Store.Initial /\
    Store.pipe_out P = S (2 * p).
Proof.
  intros Hreach. destruct (reachable_Program_inv st Hreach) as [_ Hpipes Hprocs _].
  split; [exact Hpipes |]. intros p P Hp.
  destruct (Hprocs p P Hp) as (Hs & Hi & Ho & _). auto.
Qed.

Lemma workers_started_from_ten_witness :
  length (Store.conns countdown_done) = (2 * length (Store.procs countdown_done))%nat /\
  forall p P, Store.procs countdown_done !! p = Some P ->
    Store.start_num P = 10 /\ Store.status P <> Store.Initial /\
    Store.pipe_out P = S (2 * p).
Proof.
  apply (workers_started_from_ten countdown_done).
  apply reachable_polls, reachable_works, running_reachable.
Defined.

(** In every state the program can reach, the worker slot of the window
    holds the most recent worker and [gui_pipe] the receiving end made
    with it, and no other attribute holds a process: the workers and
    channels of earlier presses are out of reach of the window. *)
Theorem window_holds_latest_worker st :
  System.reachable st ->
  (forall name p, Store.self st !! name = Some (Py.VProcess p) ->
     name = "countdown_thread" /\ S p = length (Store.procs st)) /\
  (forall name c, Store.self st !! name = Some (Py.VConnection c) ->
     name = "gui_pipe" /\ S (S c) = length (Store.conns st)).
Proof.
  intros Hreach.
  destruct (reachable_Program_inv st Hreach) as [(th & gp & Hinv & Hth & Hgp) _ _ _].
  pose proof (inv_self _ _ _ Hinv) as Hself. split.
  - intros name p Hp. rewrite Hself in Hp. apply attrs_process in Hp as [-> Hp]. auto.
  - intros name c Hc. rewrite Hself in Hc. apply attrs_connection in Hc as [-> Hc]. auto.
Qed.

Lemma window_holds_latest_worker_witness :
  (forall name p, Store.self countdown_done !! name = Some (Py.VProcess p) ->
     name = "countdown_thread" /\ S p = length (Store.procs countdown_done)) /\
  (forall name c, Store.self countdown_done !! name = Some (Py.VConnection c) ->
     name = "gui_pipe" /\ S (S c) = length (Store.conns countdown_done)).
Proof.
  apply (window_holds_latest_worker countdown_done).
  apply reachable_polls, reachable_works, running_reachable.
Defined.

(** A worker is killed by [on_close] only: in every state the program can
    reach, a killed worker means the window has been destroyed. *)
Theorem killed_only_at_shutdown st p P :
  System.reachable st -> Store.procs st !! p = Some P ->
  Store.status P = Store.Killed ->
  Store.destroyed st = true.
Proof.
  intros Hreach Hp Hk. destruct (reachable_Program_inv st Hreach) as [_ _ Hprocs _].
  destruct (Hprocs p P Hp) as (_ & _ & _ & Hkill & _). exact (Hkill Hk).
Qed.

Lemma killed_only_at_shutdown_witness :
  Store.destroyed (Window.on_close running).1 = true.
Proof.
  apply (killed_only_at_shutdown (Window.on_close running).1 0%nat
           (Store.mkProcess 10 1 (Worker.decrement 10 1) Store.Killed false)).
  - exact (System.reachable_step running _ running_reachable
             (System.step_gui System.close running)).
  - reflexivity.
  - reflexivity.
Defined.

(** A worker is joined by the poll that receives a 0 only: in every state
    the program can reach, a joined worker means that the clearing of the
    label in 1000 ms has been asked for. *)
Theorem joined_only_at_the_end st p P :
  System.reachable st -> Store.procs st !! p = Some P ->
  Store.joined P = true ->
  (1000, Store.cb_clear_countdown_label) ∈ Store.timers st.
Proof.
  intros Hreach Hp Hj. destruct (reachable_Program_inv st Hreach) as [_ _ Hprocs _].
  destruct (Hprocs p P Hp) as (_ & _ & _ & _ & Hjoin). exact (Hjoin Hj).
Qed.

Lemma joined_only_at_the_end_witness :
  (1000, Store.cb_clear_countdown_label) ∈ Store.timers countdown_done.
Proof.
  apply (joined_only_at_the_end countdown_done 0%nat
           (Store.mkProcess 10 1 [] Store.Exited true)).
  - apply reachable_polls, reachable_works, running_reachable.
  - reflexivity.
  - reflexivity.
Defined.

(** The window asks the timer for two things only, however long it runs: a
    poll in 100 ms or the clearing of the label in 1000 ms. *)
Theorem timers_of_two_kinds st :
  System.reachable st -> Forall timer_known (Store.timers st).
Proof.
  intros Hreach. destruct (reachable_Program_inv st Hreach) as [_ _ _ Htimers].
  exact Htimers.
Qed.

Lemma timers_of_two_kinds_witness : Forall timer_known (Store.timers countdown_done).
Proof.
  apply (timers_of_two_kinds countdown_done).
  apply reachable_polls, reachable_works, running_reachable.
Defined.

(** ** The program under Tk's own event loop *)

Section EventLoop.
Import Worker Py Store Window.

Lemma Loop_inv_started : Loop_inv started.
Proof.
  split; [exists None, None; exact started_inv |].
  split; [reflexivity |]. split; [reflexivity |].
  intros p P Hp. destruct p; discriminate Hp.
Qed.

Lemma Loop_inv_frame st st' :
  Loop_inv st ->
  self st' = self st -> length (conns st') = length (conns st) ->
  timers st' = timers st -> countdown_text st' = countdown_text st ->
  length (procs st') = length (procs st) ->
  (forall p P', procs st' !! p = Some P' ->
     procs st !! p = Some P' \/
     exists P, procs st !! p = Some P /\ joined P' = joined P /\ status P' <> Initial) ->
  Loop_inv st'.
Proof.
  intros ((th & gp & Hinv) & Htm & Htxt & Hj) Hs Hlc Htm' Htxt' Hlp Hps.
  split; [| split; [congruence | split; [congruence |]]].
  - exists th, gp. eapply Window_inv_frame; [exact Hinv | exact Hs | | exact Hlc].
    intros p P Hp HP.
    assert (is_Some (procs st' !! p)) as [P' HP'].
    { apply lookup_lt_is_Some. rewrite Hlp. eapply lookup_lt_Some, Hp. }
    exists P'. split; [exact HP' |].
    destruct (Hps p P' HP') as [Hold | (P0 & _ & _ & Hi)]; [| exact Hi].
    congruence.
  - intros p P' Hp'. destruct (Hps p P' Hp') as [Hold | (P0 & Hp0 & Hj0 & _)].
    + exact (Hj p P' Hold).
    + rewrite Hj0. exact (Hj p P0 Hp0).
Qed.

Lemma Loop_inv_step st st' : Loop.step st st' -> Loop_inv st -> Loop_inv st'.
Proof.
  intros Hstep Hloop.
  destruct Hstep as [st | ms cb st Hin | st | p P st Hp Halive | p P st Hp Hdead].
  - destruct Hloop as ((th & gp & Hinv) & Htm & Htxt & Hj).
    rewrite (do_countdown_run st th gp Hinv). cbn [fst].
    split; [eexists _, _; exact (restarted_inv st th gp Hinv) |].
    split; [exact Htm |]. split; [exact Htxt |].
    intros p P Hp. cbn in Hp. apply lookup_snoc_Some in Hp as [[_ Hp] | [_ <-]].
    + exact (Hj p P Hp).
    + reflexivity.
  - destruct Hloop as (_ & Htm & _). rewrite Htm in Hin.
    apply elem_of_nil in Hin. contradiction.
  - pose proof Hloop as ((th & gp & Hinv) & Htm & Htxt & Hj).
    destruct th as [p |].
    + destruct (inv_thread _ _ _ Hinv p eq_refl) as (P & Hp & HP).
      destruct (decide (status P = Alive)) as [Halive | Hdead].
      * rewrite (on_close_run_alive st gp p P Hinv Hp Halive). cbn [fst].
        apply (Loop_inv_frame st); try reflexivity; [exact Hloop | | ].
        -- cbn. apply length_insert.
        -- intros p' P' Hp'. cbn in Hp'.
           apply insert_old_or_new in Hp' as [Hold | [-> ->]]; [left; exact Hold | right].
           exists P. repeat split; [exact Hp | discriminate].
      * rewrite (on_close_run_dead st gp p P Hinv Hp Hdead). cbn [fst].
        apply (Loop_inv_frame st); try reflexivity; [exact Hloop |].
        intros p' P' Hp'. left. exact Hp'.
    + rewrite (on_close_run_no_worker st gp Hinv). cbn [fst].
      apply (Loop_inv_frame st); try reflexivity; [exact Hloop |].
      intros p' P' Hp'. left. exact Hp'.
  - assert (forall P0 : Process,
              joined P0 = joined P -> status P0 <> Initial ->
              forall cs, length cs = length (conns st) ->
              Loop_inv (mkState (self st) (countdown_text st) cs
                          (<[p := P0]> (procs st)) (timers st) (destroyed st))) as Hgo.
    { intros P0 Hj0 Hi0 cs Hcs.
      apply (Loop_inv_frame st); try reflexivity; [exact Hloop | exact Hcs | |].
      - cbn. apply length_insert.
      - intros p' P' Hp'. cbn in Hp'.
        apply insert_old_or_new in Hp' as [Hold | [-> ->]]; [left; exact Hold | right].
        exists P. repeat split; assumption. }
    unfold System.worker_step. destruct (todo P) as [| [c v | ms] rest].
    + apply (Hgo (set_status Exited P)); [reflexivity | discriminate | reflexivity].
    + apply (Hgo (set_todo rest P)); [reflexivity | cbn; congruence |].
      apply length_deliver.
    + apply (Hgo (set_todo rest P)); [reflexivity | cbn; congruence | reflexivity].
  - apply (Loop_inv_frame st); try reflexivity; [exact Hloop | |].
    + cbn. apply length_hang_up.
    + intros p' P' Hp'. left. exact Hp'.
Qed.

Lemma Loop_reachable_works k p st : Loop.reachable st -> Loop.reachable (works k p st).
Proof.
  revert st. induction k as [| k IH]; intros st Hst; [exact Hst |].
  cbn [works]. destruct (procs st !! p) as [P |] eqn:Hp; [| exact Hst].
  case_bool_decide as Halive; [| exact Hst].
  apply IH. exact (Loop.loop_next st _ Hst (Loop.step_process p P st Hp Halive)).
Qed.

Lemma Loop_reachable_inv st : Loop.reachable st -> Loop_inv st.
Proof.
  induction 1 as [| st st' _ IH Hstep].
  - exact Loop_inv_started.
  - exact (Loop_inv_step st st' Hstep IH).
Qed.

End EventLoop.

(** Under the event loop as Tk runs it, where a callback runs only if
    [after] was asked for it, the countdown never shows: however often the
    button is pressed, nothing is ever handed to the timer, so no poll
    runs, the label stays empty and no worker is ever joined. *)
Theorem label_stays_empty st :
  Loop.reachable st ->
  Store.countdown_text st = "" /\ Store.timers st = [] /\
  forall p P, Store.procs st !! p = Some P -> Store.joined P = false.
Proof.
  intros Hreach. destruct (Loop_reachable_inv st Hreach) as (_ & Htm & Htxt & Hj).
  auto.
Qed.

Lemma label_stays_empty_witness :
  Store.countdown_text (works 21 0 running) = "" /\
  Store.timers (works 21 0 running) = [] /\
  forall p P, Store.procs (works 21 0 running) !! p = Some P -> Store.joined P = false.
Proof.
  apply (label_stays_empty (works 21 0 running)).
  apply Loop_reachable_works.
  exact (Loop.loop_next Window.started _ Loop.loop_started (Loop.step_button Window.started)).
Defined.

(** ** Values too long to be shown, and the values of the program *)

Section ValueSizes.
Import Worker Py Store Window System.

Lemma oversized_sent_inv : Window_inv oversized_sent (Some 0%nat) (Some 0%nat).
Proof.
  split.
  - reflexivity.
  - intros p [= <-]. eexists. split; [reflexivity | discriminate].
  - intros c [= <-]. split; eexists; reflexivity.
Qed.

Lemma deliver_Forall (Q : Z -> Prop) c v cs :
  Q v -> Forall (fun C => Forall Q (inbox C)) cs ->
  Forall (fun C => Forall Q (inbox C)) (deliver c v cs).
Proof.
  intros Hv Hcs. unfold deliver. destruct (cs !! c) as [C |]; [| exact Hcs].
  apply Forall_alter; [exact Hcs |]. intros C' _ HC'. cbn.
  apply Forall_app. split; [exact HC' | constructor; [exact Hv | constructor]].
Qed.

Lemma deliver_all_Forall (Q : Z -> Prop) tr cs :
  Forall Q (sent tr) -> Forall (fun C => Forall Q (inbox C)) cs ->
  Forall (fun C => Forall Q (inbox C)) (deliver_all tr cs).
Proof.
  unfold deliver_all. revert cs. induction tr as [| [c v | ms] tr IH]; intros cs Htr Hcs; cbn.
  - exact Hcs.
  - rewrite sent_cons_send in Htr. apply Forall_cons in Htr as [Hv Htr].
    apply IH; [exact Htr | apply deliver_Forall; assumption].
  - apply IH; assumption.
Qed.

Lemma decrement_ten_small c : Forall small (sent (decrement 10 c)).
Proof.
  rewrite decrement_sent. apply Forall_app. split.
  - destruct (decrement_loop_sent c 10) as (_ & Hall & _); [lia |].
    eapply Forall_impl; [exact Hall |]. unfold small. cbn. lia.
  - constructor; [unfold small; lia | constructor].
Qed.

Lemma Values_inv_handled st th gp st' :
  Values_inv st -> handled st th gp st' -> Values_inv st'.
Proof.
  intros [Hps Hcs] H. destruct H as
    [ | | c C v q Hgp' Hc Hin Hv | c C v q Hgp' Hc Hin Hv
      | c C q p P Hgp' Hc Hin Hth' Hp HP | | p P Hth' Hp HP | ].
  - split; assumption.
  - split; cbn.
    + apply Forall_app. split; [exact Hps |].
      constructor; [apply decrement_ten_small | constructor].
    + apply Forall_app. split; [exact Hcs |]. repeat constructor.
  - split; [exact Hps |]. cbn. apply Forall_insert; [exact Hcs |].
    pose proof (Forall_lookup_1 _ _ _ _ Hcs Hc) as HC. cbn in HC.
    rewrite Hin in HC. apply Forall_cons in HC as [_ HC]. exact HC.
  - split; [exact Hps |]. cbn. apply Forall_insert; [exact Hcs |].
    pose proof (Forall_lookup_1 _ _ _ _ Hcs Hc) as HC. cbn in HC.
    rewrite Hin in HC. apply Forall_cons in HC as [_ HC]. exact HC.
  - pose proof (Forall_lookup_1 _ _ _ _ Hcs Hc) as HC. cbn in HC.
    rewrite Hin in HC. apply Forall_cons in HC as [_ HC].
    pose proof (Forall_lookup_1 _ _ _ _ Hps Hp) as HP'. cbn in HP'.
    assert (Forall (fun C => Forall small (inbox C)) (<[c := set_inbox q C]> (conns st)))
      as Hcs' by (apply Forall_insert; [exact Hcs | exact HC]).
    unfold joined_store. destruct (status P); split; cbn;
      try (apply Forall_insert; [exact Hps | try exact HP'; constructor]);
      try exact Hcs'.
    apply deliver_all_Forall; assumption.
  - split; assumption.
  - split; [| exact Hcs]. cbn. apply Forall_insert; [exact Hps |].
    exact (Forall_lookup_1 _ _ _ _ Hps Hp).
  - split; assumption.
Qed.

Lemma Values_inv_step st st' :
  System_inv st -> step st st' -> Values_inv st -> Values_inv st'.
Proof.
  intros ((th & gp & Hinv) & _) Hstep [Hps Hcs].
  destruct Hstep as [a st | p P st Hp Halive | p P st Hp Hdead].
  - eapply Values_inv_handled; [split; eassumption | apply handler_handled, Hinv].
  - pose proof (Forall_lookup_1 _ _ _ _ Hps Hp) as Htodo. cbn in Htodo.
    unfold worker_step. destruct (todo P) as [| [c v | ms] rest] eqn:E; split; cbn.
    + apply Forall_insert; [exact Hps |]. cbn. rewrite E. constructor.
    + exact Hcs.
    + rewrite sent_cons_send in Htodo. apply Forall_cons in Htodo as [_ Hrest].
      apply Forall_insert; [exact Hps | exact Hrest].
    + rewrite sent_cons_send in Htodo. apply Forall_cons in Htodo as [Hv _].
      apply deliver_Forall; assumption.
    + rewrite sent_cons_sleep in Htodo. apply Forall_insert; [exact Hps | exact Htodo].
    + exact Hcs.
  - split; [exact Hps |]. cbn. unfold hang_up.
    destruct (conns st !! pipe_out P) as [C |]; [| exact Hcs].
    apply Forall_alter; [exact Hcs |]. intros C' _ HC'. exact HC'.
Qed.

Lemma reachable_Values_inv st : reachable st -> Values_inv st.
Proof.
  induction 1 as [| st st' Hreach IH Hstep].
  - split; constructor.
  - exact (Values_inv_step st st' (reachable_inv st Hreach) Hstep IH).
Qed.

End ValueSizes.

(** A poll that receives a non-zero value of more than
    [int_max_str_digits] digits takes it off the channel and then fails
    with [ValueError] while formatting it: the label and the timers are as
    they were, so no further poll is asked for. *)
Theorem update_on_oversized st th c C v q :
  Window_inv st th (Some c) -> Store.conns st !! c = Some C ->
  Store.inbox C = v :: q -> 10 ^ Py.int_max_str_digits <= Z.abs v ->
  exists st',
    Window.update st = (st', Py.Raised Py.ValueError) /\
    Store.conns st' !! c
    = Some (Store.mkConnection q (Store.peer C) (Store.peer_closed C)) /\
    Store.countdown_text st' = Store.countdown_text st /\
    Store.timers st' = Store.timers st /\
    Store.procs st' = Store.procs st.
Proof.
  intros Hinv Hc Hin Hbig.
  assert (v <> 0) as Hv.
  { intros ->. assert (0 < 10 ^ Py.int_max_str_digits) by (apply Z.pow_pos_nonneg; [lia | discriminate]).
    cbn in Hbig. lia. }
  assert (~ Py.fits v) as Hfit by (rewrite fits_iff; lia).
  eexists. split.
  - exact (update_run_oversized st th (Some c) c C v q Hinv eq_refl Hc Hin Hv Hfit).
  - repeat split. cbn. apply list_lookup_insert_eq. eapply lookup_lt_Some, Hc.
Qed.

Lemma update_on_oversized_witness :
  exists st',
    Window.update oversized_sent = (st', Py.Raised Py.ValueError) /\
    Store.conns st' !! 0%nat = Some (Store.mkConnection [6] 1 false) /\
    Store.countdown_text st' = Store.countdown_text oversized_sent /\
    Store.timers st' = Store.timers oversized_sent /\
    Store.procs st' = Store.procs oversized_sent.
Proof.
  apply (update_on_oversized oversized_sent (Some 0%nat) 0%nat
           (Store.mkConnection [10 ^ Py.int_max_str_digits; 6] 1 false)
           (10 ^ Py.int_max_str_digits) [6]);
    [exact oversized_sent_inv | reflexivity | reflexivity |].
  assert (0 < 10 ^ Py.int_max_str_digits) by (apply Z.pow_pos_nonneg; [lia | discriminate]).
  lia.
Defined.

(** In every state the program can reach, the values waiting in the
    channels and the values the workers have still to send lie between 0
    and 9; each of them is of a size Python converts to text, so no poll
    of the program fails on formatting. *)
Theorem values_between_zero_and_nine st :
  System.reachable st ->
  (forall c C v, Store.conns st !! c = Some C -> v ∈ Store.inbox C ->
     0 <= v <= 9 /\ Py.fits v) /\
  (forall p P v, Store.procs st !! p = Some P -> v ∈ Worker.sent (Store.todo P) ->
     0 <= v <= 9 /\ Py.fits v).
Proof.
  intros Hreach. destruct (reachable_Values_inv st Hreach) as [Hps Hcs]. split.
  - intros c C v Hc Hv. pose proof (Forall_lookup_1 _ _ _ _ Hcs Hc) as HC. cbn in HC.
    rewrite Forall_forall in HC. specialize (HC v Hv).
    split; [exact HC | apply fits_digit; unfold small in HC; lia].
  - intros p P v Hp Hv. pose proof (Forall_lookup_1 _ _ _ _ Hps Hp) as HP. cbn in HP.
    rewrite Forall_forall in HP. specialize (HP v Hv).
    split; [exact HP | apply fits_digit; unfold small in HP; lia].
Qed.

Lemma values_between_zero_and_nine_witness :
  (forall c C v, Store.conns first_value_sent !! c = Some C -> v ∈ Store.inbox C ->
     0 <= v <= 9 /\ Py.fits v) /\
  (forall p P v, Store.procs first_value_sent !! p = Some P ->
     v ∈ Worker.sent (Store.todo P) -> 0 <= v <= 9 /\ Py.fits v).
Proof.
  apply (values_between_zero_and_nine first_value_sent).
  exact (System.reachable_step running _ running_reachable
           (System.step_worker 0 _ running eq_refl eq_refl)).
Defined.
